(** * fsrl.utils.exp_util: experiment utilities

    A shallow embedding of [src/fsrl/utils/exp_util.py] and the properties of
    its helpers: seeding, the configuration/checkpoint loader, the name
    synthesis functions and the environment loader.

    Python objects are embedded as an inductive type of values, exceptions as
    an inductive type, and every function that can raise returns a [result].
    Functions with side effects thread an explicit record of the part of the
    process state they touch. *)

From Stdlib Require Import ZArith NArith List String Ascii Bool Lia.
From Stdlib Require Import Permutation Sorted DecimalString.
From Stdlib Require DecimalPos DecimalZ.
Import ListNotations.

Local Open Scope list_scope.
Local Open Scope string_scope.

(** ** The Python fragment the module relies on *)

Module Py.

(** Configuration values: the scalars, sequences and string-keyed mappings a
    YAML or JSON configuration holds.  A mapping keeps its items in insertion
    order, as a Python [dict] does.  [VNaN] is the floating-point
    not-a-number, the one scalar that does not equal itself; the other
    floating-point scalars are outside this model. *)
#[warnings="-register-all"]
Inductive value : Type :=
| VNone : value
| VBool (b : bool) : value
| VInt (n : Z) : value
| VStr (s : string) : value
| VNaN : value
| VList (items : list value) : value
| VTuple (items : list value) : value
| VDict (items : list (string * value)) : value.

Definition dict : Type := list (string * value).

(** Exceptions, with the data that their message is built from. *)
Inductive exn : Type :=
| KeyError (key : string)
| ValueError (msg : string)
| TypeError (msg : string)
| AttributeError (msg : string)
| AssertionError
| FileNotFoundError (path : string)
| IsADirectoryError (path : string)
| NotADirectoryError (path : string)
| ModuleNotFoundError (module : string)
| YAMLError
| UnpicklingError
| JSONDecodeError
| UnregisteredEnv (msg : string)
| DeprecatedEnv (msg : string)
| GymError (msg : string)
| RuntimeError (msg : string).

Inductive result (A : Type) : Type :=
| Return (a : A)
| Raise (e : exn).
Arguments Return {A} a.
Arguments Raise {A} e.

Definition bind {A B : Type} (m : result A) (k : A -> result B) : result B :=
  match m with
  | Return a => k a
  | Raise e => Raise e
  end.

(** [str(n)] on an integer: the decimal numeral, with a leading minus sign for
    a negative one.  The interpreter refuses to render an integer of more
    than 4300 digits; [printable] marks the integers within that limit, on
    which [str_int] is what [str] returns. *)
Definition str_int (n : Z) : string := NilZero.string_of_int (Z.to_int n).

Definition printable (n : Z) : bool := (Z.abs n <? 10 ^ 4300)%Z.

(** [str] on the scalars.  The module applies it to scalars only:
    [to_string] renders the containers itself, and the identifier that
    [load_environment] formats into its message is a string. *)
Definition str (v : value) : string :=
  match v with
  | VNone => "None"
  | VBool true => "True"
  | VBool false => "False"
  | VInt n => str_int n
  | VStr s => s
  | VNaN => "nan"
  | VList _ | VTuple _ | VDict _ => ""
  end.

(** Truth value of an object in a condition. *)
Definition truthy (v : value) : bool :=
  match v with
  | VNone => false
  | VBool b => b
  | VInt n => negb (n =? 0)%Z
  | VStr s => negb (String.length s =? 0)%nat
  | VNaN => true
  | VList l | VTuple l => negb (List.length l =? 0)%nat
  | VDict d => negb (List.length d =? 0)%nat
  end.

(** [d.get(k, None)] as an option, [d[k]] and [d.keys()]. *)
Fixpoint get {A : Type} (d : list (string * A)) (k : string) : option A :=
  match d with
  | [] => None
  | (k', v) :: rest => if (k' =? k)%string then Some v else get rest k
  end.

Definition getitem {A : Type} (d : list (string * A)) (k : string) : result A :=
  match get d k with
  | Some v => Return v
  | None => Raise (KeyError k)
  end.

Definition keys {A : Type} (d : list (string * A)) : list string := map fst d.

(** [k in l] for a list of strings. *)
Definition mem (k : string) (l : list string) : bool :=
  existsb (fun x => (x =? k)%string) l.

(** [a == b].  [bool] is a subclass of [int], so [True == 1]; not-a-number
    equals nothing, itself included; a list never equals a tuple; two
    mappings are equal when they have the same keys with equal values,
    whatever the insertion order.  Items of containers are compared as
    separate objects: the shortcut by which a container that holds
    not-a-number still equals itself, item by identical item, is not
    modelled, so [eq] may answer [false] there; where it answers [true], so
    does [==]. *)
Definition int_of_bool (b : bool) : Z := if b then 1%Z else 0%Z.

Fixpoint eq (a b : value) {struct a} : bool :=
  let eq_seq :=
    fix eq_seq (xs ys : list value) {struct xs} : bool :=
      match xs, ys with
      | [], [] => true
      | x :: xs', y :: ys' => eq x y && eq_seq xs' ys'
      | _, _ => false
      end in
  match a, b with
  | VNone, VNone => true
  | VBool x, VBool y => Bool.eqb x y
  | VBool x, VInt n => (int_of_bool x =? n)%Z
  | VInt n, VBool y => (n =? int_of_bool y)%Z
  | VInt n, VInt m => (n =? m)%Z
  | VStr s, VStr t => (s =? t)%string
  | VList xs, VList ys => eq_seq xs ys
  | VTuple xs, VTuple ys => eq_seq xs ys
  | VDict d, VDict e =>
      (List.length d =? List.length e)%nat &&
      forallb (fun kv : string * value =>
                 let (k, v) := kv in
                 match get e k with
                 | Some w => eq v w
                 | None => false
                 end) d
  | _, _ => false
  end.

(** The comparison of two sequences inside [eq], as a function of its own. *)
Fixpoint eq_seq (xs ys : list value) : bool :=
  match xs, ys with
  | [], [] => true
  | x :: xs', y :: ys' => eq x y && eq_seq xs' ys'
  | _, _ => false
  end.

(** [sorted] on a list of strings: strings compare by code point, which on the
    UTF-8 bytes of a Rocq [string] is the bytewise lexicographic order. *)
Fixpoint insert_sorted (k : string) (l : list string) : list string :=
  match l with
  | [] => [k]
  | h :: t => if (k <=? h)%string then k :: l else h :: insert_sorted k t
  end.

Fixpoint sorted (l : list string) : list string :=
  match l with
  | [] => []
  | h :: t => insert_sorted h (sorted t)
  end.

(** No string occurs twice in the list. *)
Fixpoint distinct (l : list string) : bool :=
  match l with
  | [] => true
  | h :: t => negb (mem h t) && distinct t
  end.

(** A well-formed value: the keys of every mapping in it are pairwise
    distinct, as in any Python [dict]. *)
Fixpoint wf (v : value) : bool :=
  match v with
  | VList l | VTuple l => forallb wf l
  | VDict d =>
      distinct (map fst d) &&
      forallb (fun kv : string * value => let (_, x) := kv in wf x) d
  | _ => true
  end.

(** No not-a-number in the value, at any depth. *)
Fixpoint nan_free (v : value) : bool :=
  match v with
  | VNaN => false
  | VList l | VTuple l => forallb nan_free l
  | VDict d => forallb (fun kv : string * value => let (_, x) := kv in nan_free x) d
  | _ => true
  end.

(** Induction on values, with the induction hypothesis for every item of a
    sequence or mapping. *)
Section ValueInduction.

Variable P : value -> Prop.
Hypothesis HNone : P VNone.
Hypothesis HBool : forall b, P (VBool b).
Hypothesis HInt : forall n, P (VInt n).
Hypothesis HStr : forall s, P (VStr s).
Hypothesis HNaN : P VNaN.
Hypothesis HList : forall l, Forall P l -> P (VList l).
Hypothesis HTuple : forall l, Forall P l -> P (VTuple l).
Hypothesis HDict : forall d, Forall (fun kv => P (snd kv)) d -> P (VDict d).

Fixpoint value_induction (v : value) : P v :=
  let all :=
    fix all (l : list value) : Forall P l :=
      match l with
      | [] => Forall_nil P
      | x :: r => Forall_cons x (value_induction x) (all r)
      end in
  match v with
  | VNone => HNone
  | VBool b => HBool b
  | VInt n => HInt n
  | VStr s => HStr s
  | VNaN => HNaN
  | VList l => HList l (all l)
  | VTuple l => HTuple l (all l)
  | VDict d =>
      HDict d
        ((fix items (d : list (string * value))
            : Forall (fun kv => P (snd kv)) d :=
            match d with
            | [] => Forall_nil _
            | (k, x) :: r => Forall_cons (k, x) (value_induction x) (items r)
            end) d)
  end.

End ValueInduction.

(** Code with side effects: a computation over the part [S] of the process
    state that it reads and writes.  A raised exception keeps the state reached
    so far. *)
Definition io (S A : Type) : Type := S -> result A * S.

Definition ret {S A : Type} (a : A) : io S A := fun s => (Return a, s).

Definition raise {S A : Type} (e : exn) : io S A := fun s => (Raise e, s).

Definition lift {S A : Type} (r : result A) : io S A := fun s => (r, s).

Definition modify {S : Type} (f : S -> S) : io S unit := fun s => (Return tt, f s).

Definition and_then {S A B : Type} (m : io S A) (k : A -> io S B) : io S B :=
  fun s =>
    match m s with
    | (Return a, s') => k a s'
    | (Raise e, s') => (Raise e, s')
    end.

(** [try: m except <handled>: h]; [h e] re-raises what it does not handle. *)
Definition try_except {S A : Type} (m : io S A) (h : exn -> io S A) : io S A :=
  fun s =>
    match m s with
    | (Return a, s') => (Return a, s')
    | (Raise e, s') => h e s'
    end.

Declare Scope io_scope.
Delimit Scope io_scope with io.
Notation "x <- m ;; k" := (and_then m (fun x => k))
  (at level 61, m at next level, right associativity) : io_scope.
Notation "m ;;; k" := (and_then m (fun _ => k))
  (at level 61, right associativity) : io_scope.

End Py.

(** ** Name synthesis: [to_string] and [auto_name] *)

Module Naming.
Import Py.

(** The loop shared by both container branches of [to_string]:
    [for i, v in enumerate(...): name += ("" if i == 0 else "_") + part]. *)
Fixpoint join_from (i : nat) (name : string) (parts : list string) : string :=
  match parts with
  | [] => name
  | p :: rest =>
      let prefix := if (i =? 0)%nat then "" else "_" in
      join_from (S i) (name ++ prefix ++ p) rest
  end.

(** [to_string(values)].  In the mapping branch the recursive calls are made on
    the items first and [values[k]] then reads the rendered item; [k] ranges
    over the mapping's own keys, so the lookup always finds one. *)
Fixpoint to_string (values : value) : string :=
  match values with
  | VList vs | VTuple vs => join_from 0 "" (map to_string vs)
  | VDict d =>
      let rendered := map (fun kv : string * value => let (k, v) := kv in (k, to_string v)) d in
      join_from 0 ""
        (map (fun k => match get rendered k with Some s => s | None => "" end)
             (sorted (keys d)))
  | _ => str values
  end.

Definition DEFAULT_SKIP_KEY : list string :=
  [ "task"; "reward_threshold"; "logdir"; "worker"; "project"; "group"; "name";
    "prefix"; "suffix"; "save_interval"; "render"; "verbose"; "save_ckpt";
    "training_num"; "testing_num"; "epoch"; "device"; "thread" ].

Definition DEFAULT_KEY_ABBRE : list (string * string) :=
  [ ("cost_limit", "cost");
    ("mstep_iter_num", "mnum");
    ("estep_iter_num", "enum");
    ("estep_kl", "ekl");
    ("mstep_kl_mu", "kl_mu");
    ("mstep_kl_std", "kl_std");
    ("mstep_dual_lr", "mlr");
    ("estep_dual_lr", "elr");
    ("update_per_step", "update") ].

(** [str(uuid.uuid4())]: the 128-bit integer [u] of the identifier drawn, as 32
    lower-case hexadecimal digits in groups of 8-4-4-4-12. *)
Definition hex_digit (d : N) : ascii :=
  match String.get (N.to_nat d) "0123456789abcdef" with
  | Some c => c
  | None => "0"%char
  end.

Fixpoint hex_fixed (width : nat) (n : N) (acc : string) : string :=
  match width with
  | O => acc
  | S w => hex_fixed w (n / 16)%N (String (hex_digit (n mod 16)%N) acc)
  end.

Definition uuid_str (u : N) : string :=
  let hex := hex_fixed 32 u "" in
  substring 0 8 hex ++ "-" ++ substring 8 4 hex ++ "-" ++ substring 12 4 hex
    ++ "-" ++ substring 16 4 hex ++ "-" ++ substring 20 12 hex.

Section AutoName.

Variables default_cfg current_cfg : dict.
Variable skip_keys : list string.
Variable key_abbre : list (string * string).

(** The body of the loop over [sorted(default_cfg.keys())], threading [name].
    The comparison [default_cfg[k] == current_cfg[k]] is evaluated before the
    membership test [k in skip_keys]. *)
Fixpoint auto_name_loop (ks : list string) (name : string) : result string :=
  match ks with
  | [] => Return name
  | k :: rest =>
      bind (getitem default_cfg k) (fun dv =>
      bind (getitem current_cfg k) (fun cv =>
        if eq dv cv || mem k skip_keys then auto_name_loop rest name
        else
          let prefix := if (String.length name =? 0)%nat then "" else "_" in
          let value := to_string cv in
          let k' := match get key_abbre k with Some a => a | None => k end in
          auto_name_loop rest (name ++ prefix ++ k' ++ value)))
  end.

(** [auto_name]; [u] is the identifier that [uuid.uuid4()] draws. *)
Definition auto_name (prefix suffix : string) (u : N) : result string :=
  bind (auto_name_loop (sorted (keys default_cfg)) prefix) (fun name =>
    let name :=
      if negb (String.length suffix =? 0)%nat then
        if negb (String.length name =? 0)%nat then name ++ "_" ++ suffix
        else suffix
      else name in
    let name := if (String.length name =? 0)%nat then "default" else name in
    Return (name ++ "-" ++ substring 0 4 (uuid_str u))).

End AutoName.

(** [needle in haystack] for strings. *)
Fixpoint occurs (needle haystack : string) : bool :=
  String.prefix needle haystack ||
  match haystack with
  | EmptyString => false
  | String _ rest => occurs needle rest
  end.

End Naming.

(** ** Seeding *)

Module Seeding.
Import Py.
Local Open Scope io_scope.

(** The process-wide state that [seed_all] writes, and the log of the [seed]
    methods invoked on auxiliary objects. *)
Record store : Type := mkStore {
  random_seed : option Z;
  environ : list (string * string);
  numpy_seed : option Z;
  torch_seed : option Z;
  cuda_seed : option Z;
  cuda_seed_all : option Z;
  cudnn_benchmark : bool;
  cudnn_deterministic : bool;
  seed_calls : list (string * Z)
}.

(** An auxiliary object: [seed_method] is its [seed] attribute, if it has one;
    called on a seed, the method returns or raises. *)
Record object : Type := mkObject {
  name : string;
  seed_method : option (Z -> option exn)
}.

(** What is passed as [others]: an object, and the items that iterating over
    it yields when it is iterable. *)
Record others_arg : Type := mkOthers {
  self : object;
  iter : option (list object)
}.

Definition collection (items : list object) : others_arg :=
  mkOthers (mkObject "list" None) (Some items).

Fixpoint setitem {A : Type} (d : list (string * A)) (k : string) (v : A)
  : list (string * A) :=
  match d with
  | [] => [(k, v)]
  | (k', v') :: rest =>
      if (k' =? k)%string then (k, v) :: rest else (k', v') :: setitem rest k v
  end.

Definition random_seed_set (seed : Z) : io store unit :=
  modify (fun st => mkStore (Some seed) (environ st) (numpy_seed st)
    (torch_seed st) (cuda_seed st) (cuda_seed_all st) (cudnn_benchmark st)
    (cudnn_deterministic st) (seed_calls st)).

Definition environ_set (k v : string) : io store unit :=
  modify (fun st => mkStore (random_seed st) (setitem (environ st) k v)
    (numpy_seed st) (torch_seed st) (cuda_seed st) (cuda_seed_all st)
    (cudnn_benchmark st) (cudnn_deterministic st) (seed_calls st)).

(** [np.random.seed] accepts a seed in the range of 32 bits and raises
    [ValueError] on any other; the tensor library accepts a wider range. *)
Definition np_random_seed (seed : Z) : io store unit :=
  if ((0 <=? seed) && (seed <? 2 ^ 32))%Z then
    modify (fun st => mkStore (random_seed st) (environ st) (Some seed)
      (torch_seed st) (cuda_seed st) (cuda_seed_all st) (cudnn_benchmark st)
      (cudnn_deterministic st) (seed_calls st))
  else raise (ValueError "Seed must be between 0 and 2**32 - 1").

Definition torch_seeds_set (seed : Z) : io store unit :=
  modify (fun st => mkStore (random_seed st) (environ st) (numpy_seed st)
    (Some seed) (Some seed) (Some seed) false true (seed_calls st)).

(** [o.seed(seed)]: the call is logged, then returns or raises. *)
Definition call_seed (o : object) (m : Z -> option exn) (seed : Z)
  : io store unit :=
  modify (fun st => mkStore (random_seed st) (environ st) (numpy_seed st)
    (torch_seed st) (cuda_seed st) (cuda_seed_all st) (cudnn_benchmark st)
    (cudnn_deterministic st) (seed_calls st ++ [(name o, seed)])%list) ;;;
  match m seed with
  | None => ret tt
  | Some e => raise e
  end.

(** [for item in others: if hasattr(item, "seed"): item.seed(seed)]. *)
Fixpoint seed_items (seed : Z) (items : list object) : io store unit :=
  match items with
  | [] => ret tt
  | item :: rest =>
      match seed_method item with
      | Some m => call_seed item m seed ;;; seed_items seed rest
      | None => seed_items seed rest
      end
  end.

Definition seed_all (seed : Z) (others : option others_arg) : io store value :=
  random_seed_set seed ;;;
  environ_set "PYTHONHASHSEED" (str_int seed) ;;;
  np_random_seed seed ;;;
  torch_seeds_set seed ;;;
  match others with
  | None => ret VNone
  | Some o =>
      match seed_method (self o) with
      | Some m => call_seed (self o) m seed ;;; ret (VBool true)
      | None =>
          try_except
            (match iter o with
             | Some items => seed_items seed items
             | None => raise (TypeError "object is not iterable")
             end ;;; ret VNone)
            (fun _ => ret VNone)
      end
  end.

Definition store0 : store :=
  mkStore None [] None None None None false false [].

(** Every item of the collection that has a [seed] method has had it called. *)
Definition seeds_every_item (seed : Z) (items : list object) (st : store)
  : Prop :=
  forall o m, In o items -> seed_method o = Some m ->
    In (name o, seed) (seed_calls st).

(** The store with further [seed] calls logged. *)
Definition with_calls (st : store) (calls : list (string * Z)) : store :=
  mkStore (random_seed st) (environ st) (numpy_seed st) (torch_seed st)
    (cuda_seed st) (cuda_seed_all st) (cudnn_benchmark st)
    (cudnn_deterministic st) (seed_calls st ++ calls)%list.

(** The item has no [seed] method, or its [seed] method returns. *)
Definition seeds_without_error (seed : Z) (o : object) : Prop :=
  match seed_method o with
  | Some m => m seed = None
  | None => True
  end.

(** The calls that seeding every item of [items] logs. *)
Fixpoint calls_of (seed : Z) (items : list object) : list (string * Z) :=
  match items with
  | [] => []
  | o :: rest =>
      match seed_method o with
      | Some _ => (name o, seed) :: calls_of seed rest
      | None => calls_of seed rest
      end
  end.

(** Sample objects: one whose [seed] raises, one whose [seed] returns. *)
Definition failing (n : string) : object :=
  mkObject n (Some (fun _ => Some (RuntimeError "cannot seed"))).

Definition seedable (n : string) : object :=
  mkObject n (Some (fun _ => None)).

End Seeding.

(** ** The configuration and checkpoint loader *)

Module Loader.
Import Py.
Local Open Scope io_scope.

(** What a path resolves to on the file system. *)
Inductive node : Type :=
| Directory
| File (content : string).

(** Observable operations, in the order they happen. *)
Inductive event : Type :=
| Printed (line : string)
| Opened (path : string).

(** The proper prefixes of a path that end before a separator: the
    directories that the path goes through. *)
Fixpoint ancestors_from (seen rest : string) : list string :=
  match rest with
  | EmptyString => []
  | String c rest' =>
      ((if Ascii.eqb c "/" && negb (String.length seen =? 0)%nat
        then [seen] else []) ++
       ancestors_from (seen ++ String c EmptyString) rest')%list
  end.

Definition ancestors (path : string) : list string := ancestors_from "" path.

(** Opening a path that does not resolve: the error tells whether the path
    goes through a regular file or is simply absent. *)
Definition open_failure (resolve : string -> option node) (path : string) : exn :=
  if existsb (fun a => match resolve a with
                       | Some (File _) => true
                       | _ => false
                       end) (ancestors path)
  then NotADirectoryError path
  else FileNotFoundError path.

Section Loader.

(** The file system, the YAML parser and the checkpoint deserializer are
    external; a parser returns [None] on input it rejects. *)
Variable resolve : string -> option node.
Variable model : Type.
Variable yaml_load : string -> option value.
Variable torch_unpickle : string -> option model.

Definition emit (e : event) : io (list event) unit :=
  modify (fun tr => (tr ++ [e])%list).

Definition print (line : string) : io (list event) unit := emit (Printed line).

Definition osp_exists (path : string) : bool :=
  match resolve path with Some _ => true | None => false end.

(** [open(path).read()]. *)
Definition open_read (path : string) : io (list event) string :=
  emit (Opened path) ;;;
  match resolve path with
  | Some (File content) => ret content
  | Some Directory => raise (IsADirectoryError path)
  | None => raise (open_failure resolve path)
  end.

Definition ends_with_sep (path : string) : bool :=
  match String.length path with
  | O => false
  | S n => (substring n 1 path =? "/")%string
  end.

(** [osp.join(a, b)] on a POSIX system. *)
Definition osp_join (a b : string) : string :=
  if String.prefix "/" b then b
  else if (String.length a =? 0)%nat || ends_with_sep a then a ++ b
  else a ++ "/" ++ b.

(** [torch.load(path, map_location=cpu)]: opens the file and deserializes. *)
Definition torch_load (path : string) : io (list event) model :=
  content <- open_read path ;;
  match torch_unpickle content with
  | Some m => ret m
  | None => raise UnpicklingError
  end.

(** The name of the checkpoint file, lines 81 to 83. *)
Definition model_file_name (best : bool) (epoch_model_number : option Z) : string :=
  let model_file :=
    match epoch_model_number with
    | Some n => "model_epoch-" ++ str_int n ++ ".pt"
    | None => "model.pt"
    end in
  if best then "model_best.pt" else model_file.

Definition load_config_and_model (path : string) (best : bool)
    (epoch_model_number : option Z) : io (list event) (value * model) :=
  if osp_exists path then
    let config_file := osp_join path "config.yaml" in
    print ("load config from " ++ config_file) ;;;
    text <- open_read config_file ;;
    config <- match yaml_load text with
              | Some c => ret c
              | None => raise YAMLError
              end ;;
    let model_file := model_file_name best epoch_model_number in
    let model_path := osp_join path ("checkpoint/" ++ model_file) in
    print ("load model from " ++ model_path) ;;;
    model <- torch_load model_path ;;
    ret (config, model)
  else raise (ValueError (path ++ " doesn't exist!")).

End Loader.

(** The checkpoint file as the priority "explicit epoch number, then best
    flag, then the latest file" would choose it. *)
Definition epoch_first_file_name (best : bool) (epoch_model_number : option Z)
  : string :=
  match epoch_model_number with
  | Some n => "model_epoch-" ++ str_int n ++ ".pt"
  | None => if best then "model_best.pt" else "model.pt"
  end.

(** A file system given by a table of paths. *)
Definition table (files : list (string * node)) (path : string) : option node :=
  get files path.

(** A run directory with the three kinds of checkpoint. *)
Definition run_files : list (string * node) :=
  [ ("run", Directory);
    ("run/config.yaml", File "cost_limit: 1");
    ("run/checkpoint", Directory);
    ("run/checkpoint/model.pt", File "latest");
    ("run/checkpoint/model_best.pt", File "best");
    ("run/checkpoint/model_epoch-3.pt", File "epoch 3") ].

(** Stand-ins for the parsers: the configuration and the model are the text
    of their files. *)
Definition yaml_text (text : string) : option value := Some (VStr text).
Definition unpickle_text (text : string) : option string := Some text.

End Loader.

(** ** The environment loader *)

Module EnvFactory.
Import Py.
Local Open Scope io_scope.

(** An environment instance: [configurable] tells whether the unwrapped
    environment has a [configure] method. *)
Record env : Type := mkEnv {
  env_id : string;
  render_mode : value;
  import_module : value;
  configurable : bool;
  configured_with : option dict;
  resets : nat
}.

(** What the factory does with an identifier that is not a key of its
    registry: it may resolve it to a registered identifier (the latest
    version of an unversioned name), or raise its unregistered-environment
    error (an unknown namespace, name or version), its deprecation error (a
    superseded version), or its general error (a malformed identifier). *)
Inductive unlisted : Type :=
| UseLatest (id : string)
| Unregistered
| Deprecated
| Malformed.

(** The state around the call: the files, the modules that can be imported
    and have not been imported yet, the registry of the environment factory,
    the factory's own resolution of identifiers that the registry does not
    list, and what has been printed and logged.  A module registers its
    environments when it is imported; the flag of a registered environment
    tells whether it supports configuration. *)
Record world : Type := mkWorld {
  files : list (string * Loader.node);
  modules : list (string * list (string * bool));
  registry : list (string * bool);
  resolve_unlisted : list (string * bool) -> string -> unlisted;
  stdout : list (list value);
  log : list string
}.

(** The argument [env_config]: a mapping, or the path of a JSON file. *)
Inductive config_arg : Type :=
| Mapping (d : dict)
| Path (p : string).

Definition dquote : string := String (ascii_of_nat 34) EmptyString.

Definition missing_id_message : string :=
  "The gym register-id of the environment must be provided".

Definition unregistered_message (id : string) : string :=
  "Environment " ++ id ++
  " not registered. The environment module should be specified by the " ++
  dquote ++ "import_module" ++ dquote ++
  " key of the environment configuration".

Section LoadEnvironment.

(** [json.loads], external; [None] on text that is not JSON. *)
Variable json_loads : string -> option value.

Definition print (args : list value) : io world unit :=
  modify (fun w => mkWorld (files w) (modules w) (registry w)
                     (resolve_unlisted w) (stdout w ++ [args])%list (log w)).

Definition logger_info (line : string) : io world unit :=
  modify (fun w => mkWorld (files w) (modules w) (registry w)
                     (resolve_unlisted w) (stdout w) (log w ++ [line])%list).

(** [open(path).read()] followed by [json.loads]. *)
Definition read_json (path : string) : io world value :=
  fun w =>
    match get (files w) path with
    | None => (Raise (Loader.open_failure (get (files w)) path), w)
    | Some Loader.Directory => (Raise (IsADirectoryError path), w)
    | Some (Loader.File text) =>
        match json_loads text with
        | Some v => (Return v, w)
        | None => (Raise JSONDecodeError, w)
        end
    end.

(** [__import__(name)]: the name has to be a string and the module has to be
    found; importing it registers its environments. *)
Definition import (name : value) : io world unit :=
  match name with
  | VStr m =>
      fun w =>
        match get (modules w) m with
        | Some envs =>
            (Return tt, mkWorld (files w) (modules w) (envs ++ registry w)%list
                          (resolve_unlisted w) (stdout w) (log w))
        | None => (Raise (ModuleNotFoundError m), w)
        end
  | _ => raise (TypeError "__import__() argument 1 must be str")
  end.

(** [gym.make(id, render_mode=render_mode)].  An identifier that is a key of
    the registry is made.  For any other identifier the outcome is the
    factory's own resolution: the registered identifier it resolves to is
    made, or one of the factory's errors is raised, of which only the
    unregistered-environment error is the one that [load_environment]
    handles. *)
Definition gym_make (id : value) (mode : value) : io world env :=
  match id with
  | VStr s =>
      fun w =>
        match get (registry w) s with
        | Some cfg => (Return (mkEnv s mode VNone cfg None 0), w)
        | None =>
            match resolve_unlisted w (registry w) s with
            | UseLatest s' =>
                match get (registry w) s' with
                | Some cfg => (Return (mkEnv s' mode VNone cfg None 0), w)
                | None => (Raise (UnregisteredEnv s), w)
                end
            | Unregistered => (Raise (UnregisteredEnv s), w)
            | Deprecated => (Raise (DeprecatedEnv s), w)
            | Malformed => (Raise (GymError s), w)
            end
        end
  | _ => raise AssertionError
  end.

Definition get_or_none (d : dict) (k : string) : value :=
  match get d k with Some v => v | None => VNone end.

Definition set_import_module (e : env) (v : value) : env :=
  mkEnv (env_id e) (render_mode e) v (configurable e) (configured_with e) (resets e).

(** [env.unwrapped.configure(env_config)] followed by [env.reset()], for an
    environment that supports configuration.  For one that does not, the
    attribute error is raised; its text, which names the class of the
    environment, is not modelled, and [configure] stands for it. *)
Definition configure_and_reset (e : env) (cfg : dict) : io world env :=
  if configurable e then
    ret (mkEnv (env_id e) (render_mode e) (import_module e) true (Some cfg)
           (S (resets e)))
  else raise (AttributeError "configure").

(** Lines 199 and 200: the module named by a true [import_module] entry is
    imported. *)
Definition import_step (env_config : dict) : io world unit :=
  if truthy (get_or_none env_config "import_module") then
    name <- lift (getitem env_config "import_module") ;;
    import name
  else ret tt.

Definition load_environment (env_config : config_arg) (mode : value)
  : io world env :=
  loaded <- match env_config with
            | Mapping d => ret (VDict d)
            | Path p => read_json p
            end ;;
  env_config <- match loaded with
                | VDict d => ret d
                | _ => raise (AttributeError "get")
                end ;;
  import_step env_config ;;;
  env <- try_except
           (id <- lift (getitem env_config "id") ;;
            env <- gym_make id mode ;;
            ret (set_import_module env (get_or_none env_config "import_module")))
           (fun e =>
              match e with
              | KeyError _ => raise (ValueError missing_id_message)
              | UnregisteredEnv _ =>
                  hint <- lift (getitem env_config "import_module") ;;
                  print [VStr "import_module"; hint] ;;;
                  id <- lift (getitem env_config "id") ;;
                  raise (UnregisteredEnv (unregistered_message (str id)))
              | _ => raise e
              end) ;;
  try_except
    (configure_and_reset env env_config)
    (fun e =>
       match e with
       | AttributeError what =>
           logger_info ("This environment does not support configuration. " ++ what) ;;;
           ret env
       | _ => raise e
       end).

End LoadEnvironment.

(** A factory for which every identifier outside the registry is unknown. *)
Definition strict (registered : list (string * bool)) (id : string) : unlisted :=
  Unregistered.

Definition world0 : world := mkWorld [] [] [] strict [] [].


(** No text is JSON: enough for calls that pass a mapping. *)
Definition no_json (text : string) : option value := None.

End EnvFactory.

(** ** Configuration lookup and dimensions: [get_cfg_value], [dict_dims] *)

Module Config.
Import Py.

(** [len(s)] on a string: the number of code points, that is, of the UTF-8
    bytes that are not continuation bytes. *)
Definition is_continuation (c : ascii) : bool :=
  ((128 <=? N_of_ascii c) && (N_of_ascii c <? 192))%N.

Fixpoint len_str (s : string) : nat :=
  match s with
  | EmptyString => 0
  | String c rest => (if is_continuation c then 0 else 1) + len_str rest
  end.

Section Text.

(** [repr] of a string object, with the quoting and escaping of the
    interpreter, is external. *)
Variable repr_str : string -> string.

(** [repr(v)], which is also what [str] gives on a container. *)
Fixpoint repr (v : value) : string :=
  match v with
  | VNone => "None"
  | VBool true => "True"
  | VBool false => "False"
  | VInt n => str_int n
  | VStr s => repr_str s
  | VNaN => "nan"
  | VList l => "[" ++ String.concat ", " (map repr l) ++ "]"
  | VTuple l =>
      match l with
      | [x] => "(" ++ repr x ++ ",)"
      | _ => "(" ++ String.concat ", " (map repr l) ++ ")"
      end
  | VDict d =>
      "{" ++ String.concat ", "
               (map (fun kv : string * value =>
                       let (k, x) := kv in repr_str k ++ ": " ++ repr x) d)
          ++ "}"
  end.

(** [str(v)] on any value. *)
Definition str_any (v : value) : string :=
  match v with
  | VStr s => s
  | _ => repr v
  end.

(** [get_cfg_value(config, key)].  On a mapping, the recursive calls are made
    on the nested mappings first and [config[k]] then reads their results.
    What is not a mapping fails on [key in config], on [config[key]] or on
    [config.keys()]. *)
Fixpoint get_cfg_value (config : value) (key : string) : result value :=
  match config with
  | VDict d =>
      match get d key with
      | Some value =>
          match value with
          | VList l =>
              Return (VStr (fold_left (fun suffix i => suffix ++ str_any i) l ""))
          | _ => Return (VStr (str_any value))
          end
      | None =>
          let nested :=
            map (fun kv : string * value =>
                   let (k, x) := kv in
                   (k, match x with
                       | VDict _ => Some (get_cfg_value x key)
                       | _ => None
                       end)) d in
          (fix scan (ks : list string) : result value :=
             match ks with
             | [] => Return (VStr "None")
             | k :: rest =>
                 match get nested k with
                 | Some (Some (Raise e)) => Raise e
                 | Some (Some (Return VNone)) => scan rest
                 | Some (Some (Return res)) => Return res
                 | _ => scan rest
                 end
             end) (keys d)
      end
  | VList l | VTuple l =>
      if existsb (fun x => eq (VStr key) x) l
      then Raise (TypeError "indices must be integers")
      else Raise (AttributeError "keys")
  | VStr s =>
      if Naming.occurs key s
      then Raise (TypeError "string indices must be integers")
      else Raise (AttributeError "keys")
  | _ => Raise (TypeError "argument is not iterable")
  end.

End Text.

(** The search through the nested mappings, lines 57 to 61, as the loop that
    [get_cfg_value] runs on a mapping without the key. *)
Definition scan (repr_str : string -> string) (key : string) (d : dict)
  : list string -> result value :=
  fix scan (ks : list string) : result value :=
    match ks with
    | [] => Return (VStr "None")
    | k :: rest =>
        match get (map (fun kv : string * value =>
                          let (k0, x) := kv in
                          (k0, match x with
                               | VDict _ => Some (get_cfg_value repr_str x key)
                               | _ => None
                               end)) d) k with
        | Some (Some (Raise e)) => Raise e
        | Some (Some (Return VNone)) => scan rest
        | Some (Some (Return res)) => Return res
        | _ => scan rest
        end
    end.

(** On a mapping the result is a string. *)
Definition returns_str (repr_str : string -> string) (key : string)
    (v : value) : Prop :=
  match v with
  | VDict _ => exists s, get_cfg_value repr_str v key = Return (VStr s)
  | _ => True
  end.

(** [dict_dims(mydict)]: iterating over a mapping yields its keys. *)
Definition dict_dims (mydict : dict) : nat * nat :=
  let d1 := List.length mydict in
  let d2 := fold_left (fun d2 d => Nat.max d2 (len_str d)) (keys mydict) 0 in
  (d1, d2).

(** The mapping has no nested mapping among its values. *)
Definition flat (d : dict) : bool :=
  forallb (fun kv : string * value =>
             match snd kv with VDict _ => false | _ => true end) d.

(** A stand-in for the string [repr]: single quotes around the text. *)
Definition quote_plain (s : string) : string := "'" ++ s ++ "'".

End Config.

(** ** Sample worlds for the environment loader *)

Module Samples.
Import Py EnvFactory.

(** A module [my_envs] that registers a configurable environment [Custom-v0]
    and a plain one [Plain-v0], and a registry that knows [CartPole-v1]. *)
Definition sample_world : world :=
  mkWorld
    [ ("env.json", Loader.File "{id: CartPole-v1}") ]
    [ ("my_envs", [ ("Custom-v0", true); ("Plain-v0", false) ]) ]
    [ ("CartPole-v1", false) ]
    strict
    [] [].

End Samples.

(** * Properties *)

(** ** Facts about the Python fragment *)

Module PyFacts.
Import Py.

Lemma ascii_compare_trans (a b c : ascii) (o : comparison) :
  Ascii.compare a b = o -> Ascii.compare b c = o -> Ascii.compare a c = o.
Proof.
  unfold Ascii.compare. intros Hab Hbc. destruct o.
  - apply N.compare_eq_iff in Hab, Hbc. apply N.compare_eq_iff. congruence.
  - rewrite N.compare_lt_iff in *. lia.
  - rewrite N.compare_gt_iff in *. lia.
Qed.

Lemma string_compare_lt_trans (s1 : string) :
  forall s2 s3, (s1 ?= s2) = Lt -> (s2 ?= s3) = Lt -> (s1 ?= s3) = Lt.
Proof.
  induction s1 as [|a s1 IH]; intros [|b s2] [|c s3]; simpl; try congruence.
  destruct (Ascii.compare a b) eqn:Hab; try discriminate;
    destruct (Ascii.compare b c) eqn:Hbc; try discriminate; intros H12 H23.
  - apply Ascii.compare_eq_iff in Hab, Hbc. subst.
    replace (Ascii.compare c c) with Eq. { eauto. }
    symmetry. unfold Ascii.compare. apply N.compare_refl.
  - apply Ascii.compare_eq_iff in Hab. subst. now rewrite Hbc.
  - apply Ascii.compare_eq_iff in Hbc. subst. now rewrite Hab.
  - now rewrite (ascii_compare_trans a b c Lt Hab Hbc).
Qed.

Lemma leb_false_lt (s1 s2 : string) : (s1 <=? s2) = false -> (s2 ?= s1) = Lt.
Proof.
  unfold String.leb. rewrite String.compare_antisym.
  destruct (s2 ?= s1); simpl; congruence.
Qed.

Lemma string_compare_lt_irrefl (s : string) : (s ?= s) <> Lt.
Proof.
  intros E. pose proof E as E'. rewrite String.compare_antisym, E in E'.
  discriminate.
Qed.

Lemma leb_trans (s1 s2 s3 : string) :
  (s1 <=? s2) = true -> (s2 <=? s3) = true -> (s1 <=? s3) = true.
Proof.
  intros H12 H23. destruct (s1 <=? s3) eqn:H13; [reflexivity|].
  apply leb_false_lt in H13. unfold String.leb in H12, H23.
  exfalso.
  destruct (s1 ?= s2) eqn:E12; try discriminate;
    destruct (s2 ?= s3) eqn:E23; try discriminate.
  - apply String.compare_eq_iff in E12, E23. subst.
    now apply (string_compare_lt_irrefl s3).
  - apply String.compare_eq_iff in E12. subst.
    apply (string_compare_lt_irrefl s2).
    now apply (string_compare_lt_trans _ _ _ E23).
  - apply String.compare_eq_iff in E23. subst.
    apply (string_compare_lt_irrefl s1).
    now apply (string_compare_lt_trans _ _ _ E12).
  - apply (string_compare_lt_irrefl s1).
    apply (string_compare_lt_trans _ _ _ E12).
    now apply (string_compare_lt_trans _ _ _ E23).
Qed.

Lemma insert_sorted_comm (x y : string) (l : list string) :
  insert_sorted x (insert_sorted y l) = insert_sorted y (insert_sorted x l).
Proof.
  assert (Hhead : forall t, (if (x <=? y) then x :: y :: t else y :: x :: t)
                          = (if (y <=? x) then y :: x :: t else x :: y :: t)).
  { intros t. destruct (x <=? y) eqn:Hxy, (y <=? x) eqn:Hyx; try reflexivity.
    - now rewrite (String.leb_antisym _ _ Hxy Hyx).
    - destruct (String.leb_total x y); congruence. }
  induction l as [|h t IH]; simpl.
  - destruct (x <=? y) eqn:Hxy, (y <=? x) eqn:Hyx; try reflexivity.
    + now rewrite (String.leb_antisym _ _ Hxy Hyx).
    + destruct (String.leb_total x y); congruence.
  - destruct (y <=? h) eqn:Hyh, (x <=? h) eqn:Hxh; simpl;
      rewrite ?Hyh, ?Hxh.
    + apply Hhead.
    + destruct (x <=? y) eqn:Hxy.
      * rewrite (leb_trans _ _ _ Hxy Hyh) in Hxh. discriminate.
      * reflexivity.
    + destruct (y <=? x) eqn:Hyx.
      * rewrite (leb_trans _ _ _ Hyx Hxh) in Hyh. discriminate.
      * reflexivity.
    + now rewrite IH.
Qed.

(** [sorted] depends on the elements only, not on their order. *)
Lemma sorted_Permutation (l1 l2 : list string) :
  Permutation l1 l2 -> sorted l1 = sorted l2.
Proof.
  induction 1; simpl.
  - reflexivity.
  - now f_equal.
  - apply insert_sorted_comm.
  - congruence.
Qed.

Lemma insert_sorted_In (x k : string) (l : list string) :
  In x (insert_sorted k l) <-> x = k \/ In x l.
Proof.
  induction l as [|h t IH]; simpl.
  - intuition.
  - destruct (k <=? h); simpl; rewrite ?IH; intuition.
Qed.

Lemma sorted_In (x : string) (l : list string) : In x (sorted l) <-> In x l.
Proof.
  induction l as [|h t IH]; simpl; [tauto|].
  rewrite insert_sorted_In, IH. intuition.
Qed.

Lemma mem_In (k : string) (l : list string) : mem k l = true <-> In k l.
Proof.
  unfold mem. rewrite existsb_exists. split.
  - intros (x & Hin & Heq). apply String.eqb_eq in Heq. now subst.
  - intros Hin. exists k. split; [assumption | apply String.eqb_refl].
Qed.

Lemma distinct_NoDup (l : list string) : distinct l = true <-> NoDup l.
Proof.
  induction l as [|h t IH]; simpl.
  - split; [constructor | reflexivity].
  - rewrite andb_true_iff, negb_true_iff, IH. split.
    + intros [Hm Hd]. constructor; [|assumption].
      intros Hin. apply mem_In in Hin. congruence.
    + intros Hnd. inversion Hnd as [|? ? Hn Hd]; subst. split; [|assumption].
      destruct (mem h t) eqn:Hm; [|reflexivity]. apply mem_In in Hm. tauto.
Qed.

Section Lookup.
Context {A : Type}.

Lemma get_None_not_In (d : list (string * A)) (k : string) :
  get d k = None <-> ~ In k (keys d).
Proof.
  induction d as [|[k' v] d IH]; simpl.
  - tauto.
  - destruct (String.eqb_spec k' k).
    + split; [discriminate | intros H; exfalso; apply H; now left].
    + rewrite IH. tauto.
Qed.

Lemma get_In_keys (d : list (string * A)) (k : string) :
  In k (keys d) -> exists v, get d k = Some v.
Proof.
  intros Hin. destruct (get d k) eqn:E; [eauto|].
  apply get_None_not_In in E. contradiction.
Qed.

Lemma get_Some_In (d : list (string * A)) (k : string) (v : A) :
  get d k = Some v -> In (k, v) d.
Proof.
  induction d as [|[k' v'] d IH]; simpl; [discriminate|].
  destruct (String.eqb_spec k' k).
  - intros [= ->]. subst. now left.
  - intros H. right. auto.
Qed.

(** With pairwise distinct keys every item is the one its key finds. *)
Lemma get_In (d : list (string * A)) (k : string) (v : A) :
  NoDup (keys d) -> In (k, v) d -> get d k = Some v.
Proof.
  induction d as [|[k' v'] d IH]; simpl; [tauto|].
  intros Hnd [Heq | Hin].
  - injection Heq as -> ->. now rewrite String.eqb_refl.
  - inversion Hnd as [|? ? Hn Hd]; subst.
    destruct (String.eqb_spec k' k) as [->|Hne].
    + exfalso. apply Hn. change (In (fst (k, v)) (map fst d)). now apply in_map.
    + auto.
Qed.

(** Lookup does not depend on the insertion order. *)
Lemma get_Permutation (d1 d2 : list (string * A)) (k : string) :
  NoDup (keys d1) -> Permutation d1 d2 -> get d1 k = get d2 k.
Proof.
  intros Hnd Hp.
  assert (Hnd2 : NoDup (keys d2)).
  { eapply Permutation_NoDup; [|exact Hnd]. now apply Permutation_map. }
  destruct (get d1 k) eqn:E1.
  - apply get_Some_In in E1. symmetry. apply get_In; [assumption|].
    eapply Permutation_in; eauto.
  - destruct (get d2 k) eqn:E2; [|reflexivity].
    apply get_Some_In in E2. apply Permutation_sym in Hp.
    rewrite (get_In d1 k a Hnd (Permutation_in _ Hp E2)) in E1. discriminate.
Qed.

End Lookup.

End PyFacts.

(** ** Properties of the name synthesis *)

Module NamingFacts.
Import Py PyFacts Naming.

Lemma append_assoc (a b c : string) : (a ++ b) ++ c = a ++ b ++ c.
Proof. induction a as [|x a IH]; simpl; congruence. Qed.

Lemma length_append (a b : string) :
  String.length (a ++ b) = String.length a + String.length b.
Proof. induction a as [|x a IH]; simpl; congruence. Qed.

Lemma length_substring (s : string) :
  forall n m, n + m <= String.length s -> String.length (substring n m s) = m.
Proof.
  induction s as [|c s IH]; intros [|n] [|m]; simpl; intros H;
    try reflexivity; try lia.
  - f_equal. apply (IH 0 m). lia.
  - apply (IH n 0). lia.
  - apply (IH n (S m)). lia.
Qed.

Lemma substring_append_short (a b : string) :
  forall m, m <= String.length a -> substring 0 m (a ++ b) = substring 0 m a.
Proof.
  induction a as [|c a IH]; intros [|m]; simpl; intros H;
    try reflexivity; try lia.
  - now destruct b.
  - f_equal. apply IH. lia.
Qed.

Lemma length_hex_fixed (width : nat) :
  forall n acc, String.length (hex_fixed width n acc) = width + String.length acc.
Proof.
  induction width as [|w IH]; intros n acc; simpl; [reflexivity|].
  rewrite IH. simpl. lia.
Qed.

(** The first four characters of the identifier's string form are four
    hexadecimal digits: the slice [[:4]] is never shorter. *)
Lemma length_uuid_prefix (u : N) :
  String.length (substring 0 4 (uuid_str u)) = 4.
Proof.
  unfold uuid_str.
  assert (H32 : String.length (hex_fixed 32 u "") = 32)
    by (rewrite length_hex_fixed; reflexivity).
  rewrite substring_append_short.
  - apply length_substring. rewrite length_substring; lia.
  - rewrite length_substring; lia.
Qed.

(** The accumulation loop of [to_string] joins the parts with underscores. *)
Lemma join_from_S (parts : list string) :
  forall i acc,
    join_from (S i) acc parts =
    match parts with
    | [] => acc
    | _ :: _ => acc ++ "_" ++ String.concat "_" parts
    end.
Proof.
  induction parts as [|p rest IH]; intros i acc; [reflexivity|].
  cbn [join_from Nat.eqb]. rewrite IH.
  destruct rest as [|q rest]; simpl.
  - reflexivity.
  - now rewrite !append_assoc.
Qed.

Lemma join_from_concat (parts : list string) :
  join_from 0 "" parts = String.concat "_" parts.
Proof.
  destruct parts as [|p rest]; [reflexivity|].
  cbn [join_from Nat.eqb]. rewrite join_from_S.
  destruct rest; reflexivity.
Qed.

Lemma to_string_dict (d : dict) :
  to_string (VDict d) =
  join_from 0 ""
    (map (fun k => match get (map (fun kv : string * value =>
                                     let (k, v) := kv in (k, to_string v)) d) k with
                   | Some s => s
                   | None => ""
                   end)
         (sorted (keys d))).
Proof. reflexivity. Qed.

Lemma eq_list (xs ys : list value) : eq (VList xs) (VList ys) = eq_seq xs ys.
Proof. reflexivity. Qed.

Lemma eq_tuple (xs ys : list value) : eq (VTuple xs) (VTuple ys) = eq_seq xs ys.
Proof. reflexivity. Qed.

Lemma eq_seq_refl (l : list value) :
  Forall (fun v => wf v = true -> nan_free v = true -> eq v v = true) l ->
  forallb wf l = true -> forallb nan_free l = true -> eq_seq l l = true.
Proof.
  induction 1 as [|x l Hx _ IH]; simpl; [reflexivity|].
  rewrite !andb_true_iff. intros [Hwx Hwl] [Hnx Hnl].
  rewrite (Hx Hwx Hnx). auto.
Qed.

(** On well-formed values that hold no not-a-number, [==] is reflexive. *)
Lemma eq_refl_wf (v : value) :
  wf v = true -> nan_free v = true -> eq v v = true.
Proof.
  induction v as [ | [|] | n | s | | l IH | l IH | d IH ] using value_induction;
    try reflexivity.
  - intros _ _. simpl. apply Z.eqb_refl.
  - intros _ _. simpl. apply String.eqb_refl.
  - intros _ Hnan. discriminate Hnan.
  - intros Hwf Hnan. rewrite eq_list. now apply eq_seq_refl.
  - intros Hwf Hnan. rewrite eq_tuple. now apply eq_seq_refl.
  - intros Hwf Hnan. change (wf (VDict d)) with
      (distinct (map fst d) &&
       forallb (fun kv : string * value => let (_, x) := kv in wf x) d) in Hwf.
    change (nan_free (VDict d)) with
      (forallb (fun kv : string * value => let (_, x) := kv in nan_free x) d)
      in Hnan.
    apply andb_true_iff in Hwf as [Hd Hitems].
    apply distinct_NoDup in Hd. rewrite forallb_forall in Hitems, Hnan.
    change (eq (VDict d) (VDict d)) with
      ((List.length d =? List.length d)%nat &&
       forallb (fun kv : string * value =>
                  let (k, v) := kv in
                  match get d k with Some w => eq v w | None => false end) d).
    rewrite Nat.eqb_refl. simpl. apply forallb_forall. intros [k x] Hin.
    rewrite (get_In d k x Hd Hin).
    rewrite Forall_forall in IH. apply (IH (k, x) Hin).
    + apply (Hitems (k, x) Hin).
    + apply (Hnan (k, x) Hin).
Qed.

Lemma wf_dict_item (d : dict) (k : string) (v : value) :
  wf (VDict d) = true -> get d k = Some v -> wf v = true.
Proof.
  change (wf (VDict d)) with
    (distinct (map fst d) &&
     forallb (fun kv : string * value => let (_, x) := kv in wf x) d).
  rewrite andb_true_iff, forallb_forall. intros [_ H] Hg.
  apply (H (k, v)). now apply get_Some_In.
Qed.

Lemma nan_free_dict_item (d : dict) (k : string) (v : value) :
  nan_free (VDict d) = true -> get d k = Some v -> nan_free v = true.
Proof.
  change (nan_free (VDict d)) with
    (forallb (fun kv : string * value => let (_, x) := kv in nan_free x) d).
  rewrite forallb_forall. intros H Hg.
  apply (H (k, v)). now apply get_Some_In.
Qed.

End NamingFacts.

Module NamingSpec.
Import Py PyFacts Naming NamingFacts.

(** C3, as stated, fails: the elements of [[1, 2, 3]] are joined with an
    underscore between them, so the result is "1_2_3" and not "123". *)
Lemma to_string_123_has_separators :
  to_string (VList [VInt 1; VInt 2; VInt 3]) = "1_2_3" /\
  to_string (VList [VInt 1; VInt 2; VInt 3]) <> "123".
Proof. split; [reflexivity | discriminate]. Qed.

(** C3 (amended): for every non-string sequence, list or tuple, [to_string]
    concatenates the string forms of the elements in order with a single
    underscore between consecutive elements; [[1, 2, 3]] gives "1_2_3". *)
Theorem to_string_sequence_underscore_joined (vs : list value) :
  to_string (VList vs) = String.concat "_" (map to_string vs) /\
  to_string (VTuple vs) = String.concat "_" (map to_string vs) /\
  to_string (VList [VInt 1; VInt 2; VInt 3]) = "1_2_3".
Proof.
  repeat split.
  - change (to_string (VList vs)) with (join_from 0 "" (map to_string vs)).
    apply join_from_concat.
  - change (to_string (VTuple vs)) with (join_from 0 "" (map to_string vs)).
    apply join_from_concat.
Qed.

(** C9: two mappings with the same key-value associations, whatever the order
    in which their keys were inserted, have the same [to_string]: the keys
    are visited in sorted order. *)
Theorem to_string_mapping_order_insensitive (d1 d2 : dict) :
  distinct (keys d1) = true ->
  Permutation d1 d2 ->
  to_string (VDict d1) = to_string (VDict d2).
Proof.
  intros Hd Hp. rewrite !to_string_dict.
  rewrite (sorted_Permutation (keys d1) (keys d2))
    by (unfold keys; now apply Permutation_map).
  f_equal. apply map_ext. intros k.
  set (render := fun kv : string * value => let (k0, v) := kv in (k0, to_string v)).
  rewrite (get_Permutation (map render d1) (map render d2) k).
  - reflexivity.
  - unfold keys. rewrite map_map.
    rewrite (map_ext (fun x => fst (render x)) fst) by (intros [? ?]; reflexivity).
    now apply distinct_NoDup.
  - now apply Permutation_map.
Qed.

Lemma to_string_mapping_order_insensitive_witness :
  to_string (VDict [("b", VInt 2); ("a", VInt 1)]) =
  to_string (VDict [("a", VInt 1); ("b", VInt 2)]).
Proof.
  apply to_string_mapping_order_insensitive; [reflexivity | apply perm_swap].
Defined.

(** The loop of [auto_name] leaves the name as it is when the current
    configuration is the default one and holds no not-a-number. *)
Lemma auto_name_loop_identical (cfg : dict) (skip : list string)
    (abbre : list (string * string)) (name : string) :
  wf (VDict cfg) = true ->
  nan_free (VDict cfg) = true ->
  forall ks, (forall k, In k ks -> In k (keys cfg)) ->
  auto_name_loop cfg cfg skip abbre ks name = Return name.
Proof.
  intros Hwf Hnan ks. induction ks as [|k ks IH]; intros Hks; [reflexivity|].
  destruct (get_In_keys cfg k (Hks k (or_introl Logic.eq_refl))) as [v Hv].
  cbn [auto_name_loop]. unfold getitem. rewrite Hv. cbn [bind].
  rewrite (eq_refl_wf v (wf_dict_item cfg k v Hwf Hv)
             (nan_free_dict_item cfg k v Hnan Hv)).
  cbn [orb]. apply IH. intros k' Hk'. apply Hks. now right.
Qed.

(** C7, as stated, fails: a configuration that holds a floating-point
    not-a-number differs from itself, since not-a-number does not equal
    itself, and the key enters the name. *)
Lemma auto_name_identical_configs_with_nan :
  auto_name [("lr", VNaN)] [("lr", VNaN)]
            DEFAULT_SKIP_KEY DEFAULT_KEY_ABBRE "" "" 0
  = Return "lrnan-0000".
Proof. reflexivity. Qed.

(** C7 (amended): with identical default and current configurations that hold
    no floating-point not-a-number, at any depth, and the default empty
    prefix and suffix, [auto_name] returns "default-" followed by exactly
    four characters. *)
Theorem auto_name_identical_configs (cfg : dict) (skip : list string)
    (abbre : list (string * string)) (u : N) :
  wf (VDict cfg) = true ->
  nan_free (VDict cfg) = true ->
  exists tail : string,
    auto_name cfg cfg skip abbre "" "" u = Return ("default-" ++ tail) /\
    String.length tail = 4.
Proof.
  intros Hwf Hnan. exists (substring 0 4 (uuid_str u)). split.
  - unfold auto_name.
    rewrite auto_name_loop_identical; [reflexivity|assumption|assumption|].
    intros k Hk. exact (proj1 (sorted_In _ _) Hk).
  - apply length_uuid_prefix.
Qed.

Lemma auto_name_identical_configs_witness :
  exists tail : string,
    auto_name [("cost_limit", VInt 1); ("lr", VList [VInt 1; VInt 2])]
              [("cost_limit", VInt 1); ("lr", VList [VInt 1; VInt 2])]
              DEFAULT_SKIP_KEY DEFAULT_KEY_ABBRE "" "" 48879
    = Return ("default-" ++ tail) /\ String.length tail = 4.
Proof. apply auto_name_identical_configs; reflexivity. Defined.

(** C8: against the default [{"cost_limit": 1}], the current configuration
    [{"cost_limit": 5}] gives a name that contains "cost5": the key is
    replaced by its abbreviation "cost" from the abbreviation table. *)
Theorem auto_name_cost_limit_abbreviated (u : N) :
  exists name : string,
    auto_name [("cost_limit", VInt 1)] [("cost_limit", VInt 5)]
              DEFAULT_SKIP_KEY DEFAULT_KEY_ABBRE "" "" u = Return name /\
    occurs "cost5" name = true /\
    name = "cost5-" ++ substring 0 4 (uuid_str u).
Proof.
  eexists. split; [|split].
  - unfold auto_name.
    change (auto_name_loop [("cost_limit", VInt 1)] [("cost_limit", VInt 5)]
              DEFAULT_SKIP_KEY DEFAULT_KEY_ABBRE
              (sorted (keys [("cost_limit", VInt 1)])) "")
      with (@Return string "cost5").
    reflexivity.
  - reflexivity.
  - reflexivity.
Qed.

(** A key of the loop that the current configuration lacks makes the loop
    raise: the lookup [current_cfg[k]] comes before the skip test. *)
Lemma auto_name_loop_missing_key (default_cfg current_cfg : dict)
    (skip : list string) (abbre : list (string * string)) (k : string) :
  get current_cfg k = None ->
  forall ks name,
    In k ks -> (forall k', In k' ks -> In k' (keys default_cfg)) ->
    exists k', auto_name_loop default_cfg current_cfg skip abbre ks name
               = Raise (KeyError k') /\ get current_cfg k' = None.
Proof.
  intros Hk ks. induction ks as [|k0 ks IH]; intros name Hin Hks; [destruct Hin|].
  destruct (get_In_keys default_cfg k0 (Hks k0 (or_introl Logic.eq_refl)))
    as [dv Hdv].
  cbn [auto_name_loop]. unfold getitem at 1. rewrite Hdv. cbn [bind].
  unfold getitem at 1. destruct (get current_cfg k0) as [cv|] eqn:Hcv.
  - assert (Hin' : In k ks) by (destruct Hin as [-> | ?]; [congruence | assumption]).
    assert (Hks' : forall k', In k' ks -> In k' (keys default_cfg))
      by (intros k' Hk'; apply Hks; now right).
    cbn [bind]. destruct (eq dv cv || mem k0 skip); now apply IH.
  - exists k0. split; [reflexivity | assumption].
Qed.

(** C10: when a key of [default_cfg] is absent from [current_cfg], [auto_name]
    raises a key-lookup error instead of returning a name, whatever
    [skip_keys] holds, the skipped key itself included. *)
Theorem auto_name_missing_key_raises (default_cfg current_cfg : dict)
    (skip : list string) (abbre : list (string * string))
    (prefix suffix : string) (u : N) (k : string) :
  In k (keys default_cfg) ->
  get current_cfg k = None ->
  exists k',
    auto_name default_cfg current_cfg skip abbre prefix suffix u
    = Raise (KeyError k') /\ get current_cfg k' = None.
Proof.
  intros Hin Hk. unfold auto_name.
  destruct (auto_name_loop_missing_key default_cfg current_cfg skip abbre k Hk
              (sorted (keys default_cfg)) prefix) as (k' & Hr & Hk').
  - exact (proj2 (sorted_In _ _) Hin).
  - intros k0 H0. exact (proj1 (sorted_In _ _) H0).
  - exists k'. rewrite Hr. split; [reflexivity | assumption].
Qed.

Lemma auto_name_missing_key_raises_witness :
  mem "task" DEFAULT_SKIP_KEY = true /\
  exists k',
    auto_name [("task", VStr "run")] [] DEFAULT_SKIP_KEY DEFAULT_KEY_ABBRE
              "" "" 0 = Raise (KeyError k') /\
    get (@nil (string * value)) k' = None.
Proof.
  split; [reflexivity|].
  apply (auto_name_missing_key_raises _ _ _ _ _ _ _ "task");
    [simpl; left; reflexivity | reflexivity].
Defined.

End NamingSpec.

(** ** Properties of the seeding *)

Module SeedingSpec.
Import Py Seeding.
Local Open Scope Z_scope.

Lemma call_seed_returns (o : object) (m : Z -> option exn) (seed : Z) (st : store) :
  m seed = None ->
  call_seed o m seed st = (Return tt, with_calls st [(name o, seed)]).
Proof.
  intros Hm. unfold call_seed, and_then, modify. now rewrite Hm.
Qed.

Lemma call_seed_raises (o : object) (m : Z -> option exn) (seed : Z) (st : store)
    (e : exn) :
  m seed = Some e ->
  call_seed o m seed st = (Raise e, with_calls st [(name o, seed)]).
Proof.
  intros Hm. unfold call_seed, and_then, modify. now rewrite Hm.
Qed.

(** The loop over the items stops at the first item whose [seed] raises: the
    items before it are seeded, the items after it are not reached. *)
Lemma seed_items_stops_at_failure (seed : Z) (bad : object)
    (m : Z -> option exn) (e : exn) (post : list object) :
  seed_method bad = Some m -> m seed = Some e ->
  forall pre st,
    Forall (seeds_without_error seed) pre ->
    exists st',
      seed_items seed (pre ++ bad :: post) st = (Raise e, st') /\
      seed_calls st' = (seed_calls st ++ calls_of seed pre ++ [(name bad, seed)])%list.
Proof.
  intros Hbad He pre. induction pre as [|o pre IH]; intros st Hpre.
  - cbn [app seed_items calls_of]. rewrite Hbad. unfold and_then.
    rewrite (call_seed_raises bad m seed st e He).
    eexists. split; reflexivity.
  - inversion Hpre as [|? ? Ho Hrest]; subst.
    cbn [app seed_items calls_of]. unfold seeds_without_error in Ho.
    destruct (seed_method o) as [mo|].
    + unfold and_then. rewrite (call_seed_returns o mo seed st Ho).
      destruct (IH (with_calls st [(name o, seed)]) Hrest) as (st' & Hr & Hc).
      exists st'. split; [exact Hr|].
      rewrite Hc. simpl. now rewrite <- app_assoc.
    + apply IH, Hrest.
Qed.

(** C2, as stated, fails: with a first item whose [seed] raises, the call
    returns normally but the second item is never seeded. *)
Lemma seed_all_skips_items_after_failure :
  fst (seed_all 1029 (Some (collection [failing "a"; seedable "b"])) store0)
    = Return VNone /\
  seed_calls (snd (seed_all 1029 (Some (collection [failing "a"; seedable "b"])) store0))
    = [("a"%string, 1029)] /\
  ~ seeds_every_item 1029 [failing "a"; seedable "b"]
      (snd (seed_all 1029 (Some (collection [failing "a"; seedable "b"])) store0)).
Proof.
  split; [reflexivity | split; [reflexivity|]].
  intros H.
  specialize (H (seedable "b") (fun _ => None)
                (or_intror (or_introl Logic.eq_refl)) Logic.eq_refl).
  cbv in H. destruct H as [H | []]. discriminate H.
Qed.

(** C2 (amended): with a seed that the numeric library accepts and a
    collection passed as [others], a failure raised while seeding an item is
    caught and ignored, so the call returns normally; the items before the
    failing one have been seeded, and the loop ends there: no item after the
    failing one is seeded. *)
Theorem seed_all_failure_swallowed_and_stops (seed : Z)
    (pre post : list object) (bad : object) (m : Z -> option exn) (e : exn)
    (st : store) :
  0 <= seed < 2 ^ 32 ->
  Forall (seeds_without_error seed) pre ->
  seed_method bad = Some m ->
  m seed = Some e ->
  exists st',
    seed_all seed (Some (collection (pre ++ bad :: post))) st = (Return VNone, st') /\
    seed_calls st' = (seed_calls st ++ calls_of seed pre ++ [(name bad, seed)])%list.
Proof.
  intros Hseed Hpre Hbad He.
  unfold seed_all, and_then, random_seed_set, environ_set, np_random_seed,
    torch_seeds_set, modify.
  replace ((0 <=? seed) && (seed <? 2 ^ 32))%bool with true
    by (symmetry; apply andb_true_iff; split;
        [apply Z.leb_le | apply Z.ltb_lt]; lia).
  cbn [collection self seed_method iter]. unfold try_except.
  match goal with
  | |- context [seed_items seed _ ?s] =>
      destruct (seed_items_stops_at_failure seed bad m e post Hbad He pre s Hpre)
        as (st' & Hr & Hc); rewrite Hr
  end.
  exists st'. split; [reflexivity | exact Hc].
Qed.

Lemma seed_all_failure_swallowed_and_stops_witness :
  exists st',
    seed_all 1029
      (Some (collection ([seedable "x"] ++ failing "a" :: [seedable "b"])))
      store0 = (Return VNone, st') /\
    seed_calls st' = [("x"%string, 1029); ("a"%string, 1029)].
Proof.
  apply (seed_all_failure_swallowed_and_stops 1029 [seedable "x"]
           [seedable "b"] (failing "a")
           (fun _ => Some (RuntimeError "cannot seed"))
           (RuntimeError "cannot seed") store0).
  - lia.
  - repeat constructor.
  - reflexivity.
  - reflexivity.
Defined.

End SeedingSpec.

(** ** Properties of the loader *)

Module LoaderSpec.
Import Py Loader.

Section LoaderLemmas.

Variable resolve : string -> option node.
Variable model : Type.
Variable yaml_load : string -> option value.
Variable torch_unpickle : string -> option model.

(** Once the configuration has been read, what is printed and opened: the
    configuration file, then the one checkpoint file that lines 81 to 83
    name. *)
Lemma load_config_and_model_trace (path : string) (best : bool)
    (epoch : option Z) (text : string) (config : value) (tr : list event) :
  osp_exists resolve path = true ->
  resolve (osp_join path "config.yaml") = Some (File text) ->
  yaml_load text = Some config ->
  snd (load_config_and_model resolve model yaml_load torch_unpickle
         path best epoch tr) =
    (tr ++ [ Printed ("load config from " ++ osp_join path "config.yaml");
             Opened (osp_join path "config.yaml");
             Printed ("load model from " ++
                      osp_join path ("checkpoint/" ++ model_file_name best epoch));
             Opened (osp_join path ("checkpoint/" ++ model_file_name best epoch)) ])%list.
Proof.
  intros Hex Hcfg Hyaml.
  unfold load_config_and_model. rewrite Hex.
  unfold and_then, print, emit, modify, torch_load, open_read, and_then, emit,
    modify, ret, raise.
  rewrite Hcfg, Hyaml.
  destruct (resolve (osp_join path ("checkpoint/" ++ model_file_name best epoch)))
    as [[|content]|]; cbn [snd fst];
    try destruct (torch_unpickle content); cbn [snd];
    rewrite <- !app_assoc; reflexivity.
Qed.

Lemma load_config_and_model_returns (path : string) (best : bool)
    (epoch : option Z) (text content : string) (config : value) (m : model)
    (tr : list event) :
  osp_exists resolve path = true ->
  resolve (osp_join path "config.yaml") = Some (File text) ->
  yaml_load text = Some config ->
  resolve (osp_join path ("checkpoint/" ++ model_file_name best epoch))
    = Some (File content) ->
  torch_unpickle content = Some m ->
  fst (load_config_and_model resolve model yaml_load torch_unpickle
         path best epoch tr) = Return (config, m).
Proof.
  intros Hex Hcfg Hyaml Hckpt Hm.
  unfold load_config_and_model. rewrite Hex.
  unfold and_then, print, emit, modify, torch_load, open_read, and_then, emit,
    modify, ret, raise.
  now rewrite Hcfg, Hyaml, Hckpt, Hm.
Qed.

End LoaderLemmas.

(** C1, as stated, fails: with an epoch number and [best=True] together the
    file loaded is [model_best.pt]; the epoch-specific file, which the stated
    priority would choose, is not opened. *)
Lemma load_config_and_model_best_overrides_epoch :
  epoch_first_file_name true (Some 3%Z) = "model_epoch-3.pt" /\
  load_config_and_model (table run_files) string yaml_text unpickle_text
    "run" true (Some 3%Z) []
  = (Return (VStr "cost_limit: 1", "best"),
     [ Printed "load config from run/config.yaml";
       Opened "run/config.yaml";
       Printed "load model from run/checkpoint/model_best.pt";
       Opened "run/checkpoint/model_best.pt" ]).
Proof. split; reflexivity. Qed.

(** C1 (amended): on an existing directory whose configuration file is read
    and parsed, the checkpoint file is chosen by the priority: the best flag
    selects [model_best.pt] over an epoch number, an epoch number [N] selects
    [model_epoch-<N>.pt] over the default, and otherwise [model.pt] is used;
    the chosen file is the only checkpoint opened, and its content is the
    model returned. *)
Theorem load_config_and_model_checkpoint_priority
    (resolve : string -> option node) (model : Type)
    (yaml_load : string -> option value) (torch_unpickle : string -> option model)
    (path : string) (best : bool) (epoch : option Z)
    (text content : string) (config : value) (m : model) (tr : list event) :
  let chosen :=
    if best then "model_best.pt"
    else match epoch with
         | Some n => "model_epoch-" ++ str_int n ++ ".pt"
         | None => "model.pt"
         end in
  osp_exists resolve path = true ->
  resolve (osp_join path "config.yaml") = Some (File text) ->
  yaml_load text = Some config ->
  resolve (osp_join path ("checkpoint/" ++ chosen)) = Some (File content) ->
  torch_unpickle content = Some m ->
  load_config_and_model resolve model yaml_load torch_unpickle path best epoch tr
  = (Return (config, m),
     (tr ++ [ Printed ("load config from " ++ osp_join path "config.yaml");
              Opened (osp_join path "config.yaml");
              Printed ("load model from " ++ osp_join path ("checkpoint/" ++ chosen));
              Opened (osp_join path ("checkpoint/" ++ chosen)) ])%list).
Proof.
  intros chosen Hex Hcfg Hyaml Hckpt Hm.
  assert (Hname : chosen = model_file_name best epoch)
    by (subst chosen; unfold model_file_name; now destruct best).
  clearbody chosen. subst chosen.
  rewrite (surjective_pairing (load_config_and_model _ _ _ _ _ _ _ _)).
  f_equal.
  - eapply load_config_and_model_returns; eassumption.
  - eapply load_config_and_model_trace; eassumption.
Qed.

Lemma load_config_and_model_checkpoint_priority_witness :
  load_config_and_model (table run_files) string yaml_text unpickle_text
    "run" false (Some 3%Z) []
  = (Return (VStr "cost_limit: 1", "epoch 3"),
     [ Printed "load config from run/config.yaml";
       Opened "run/config.yaml";
       Printed "load model from run/checkpoint/model_epoch-3.pt";
       Opened "run/checkpoint/model_epoch-3.pt" ]).
Proof.
  apply (load_config_and_model_checkpoint_priority (table run_files) string
           yaml_text unpickle_text "run" false (Some 3%Z) "cost_limit: 1"
           "epoch 3" (VStr "cost_limit: 1") "epoch 3" []);
    reflexivity.
Defined.

(** C5: for a path that does not exist the call raises the error that names
    the path, and nothing is printed or opened; for a path that exists that
    error is not raised: the call goes on to open the configuration file. *)
Theorem load_config_and_model_missing_path
    (resolve : string -> option node) (model : Type)
    (yaml_load : string -> option value) (torch_unpickle : string -> option model)
    (path : string) (best : bool) (epoch : option Z) (tr : list event) :
  (osp_exists resolve path = false ->
   load_config_and_model resolve model yaml_load torch_unpickle path best epoch tr
   = (Raise (ValueError (path ++ " doesn't exist!")), tr)) /\
  (osp_exists resolve path = true ->
   fst (load_config_and_model resolve model yaml_load torch_unpickle
          path best epoch tr) <> Raise (ValueError (path ++ " doesn't exist!")) /\
   exists rest,
     snd (load_config_and_model resolve model yaml_load torch_unpickle
            path best epoch tr)
     = (tr ++ Printed ("load config from " ++ osp_join path "config.yaml")
           :: Opened (osp_join path "config.yaml") :: rest)%list).
Proof.
  split; intros Hex; unfold load_config_and_model; rewrite Hex.
  - reflexivity.
  - assert (Hopen : forall p msg, open_failure resolve p <> ValueError msg)
      by (intros p msg; unfold open_failure; destruct (existsb _ _); discriminate).
    unfold and_then, print, emit, modify, torch_load, open_read, and_then, emit,
      modify, ret, raise.
    destruct (resolve (osp_join path "config.yaml")) as [[|text]|];
      cbn [fst snd]; rewrite <- ?app_assoc; cbn [app];
      try (split; [discriminate | now eexists]).
    + destruct (yaml_load text); cbn [fst snd];
        try (split; [discriminate | now eexists]).
      destruct (resolve (osp_join path _)) as [[|content]|];
        cbn [fst snd]; rewrite <- ?app_assoc; cbn [app];
        try (split; [discriminate | now eexists]).
      * destruct (torch_unpickle content); cbn [fst snd];
          split; try discriminate; now eexists.
      * split; [|now eexists]. intros [= H]. now apply (Hopen _ _ H).
    + split; [|now eexists]. intros [= H]. now apply (Hopen _ _ H).
Qed.

Lemma load_config_and_model_missing_path_witness :
  load_config_and_model (table run_files) string yaml_text unpickle_text
    "nowhere" false None []
  = (Raise (ValueError "nowhere doesn't exist!"), []) /\
  fst (load_config_and_model (table run_files) string yaml_text unpickle_text
         "run" false None []) <> Raise (ValueError "run doesn't exist!").
Proof.
  split.
  - apply (proj1 (load_config_and_model_missing_path (table run_files) string
                    yaml_text unpickle_text "nowhere" false None [])).
    reflexivity.
  - apply (proj2 (load_config_and_model_missing_path (table run_files) string
                    yaml_text unpickle_text "run" false None [])).
    reflexivity.
Defined.

End LoaderSpec.

(** ** Properties of the environment loader *)

Module EnvFactorySpec.
Import Py EnvFactory Naming.

Lemma occurs_append_r (needle a b : string) :
  occurs needle b = true -> occurs needle (a ++ b) = true.
Proof.
  intros Hb. induction a as [|c a IH]; [exact Hb|].
  cbn [append occurs]. rewrite IH. apply orb_true_r.
Qed.

(** The message of the unregistered-environment error names the
    [import_module] key, whatever the identifier. *)
Lemma unregistered_message_names_import_module (id : string) :
  occurs "import_module" (unregistered_message id) = true.
Proof.
  unfold unregistered_message. do 2 apply occurs_append_r. reflexivity.
Qed.

Section LoadEnvironmentLemmas.

Variable json_loads : string -> option value.

(** The body of the [try] block of lines 201 to 212, once the import step has
    run, when the configuration has no identifier. *)
Lemma load_environment_after_import (d : dict) (mode : value) (w w1 : world) :
  import_step d w = (Return tt, w1) ->
  load_environment json_loads (Mapping d) mode w =
  and_then
    (try_except
       (and_then (lift (getitem d "id")) (fun id =>
        and_then (gym_make id mode) (fun env =>
        ret (set_import_module env (get_or_none d "import_module")))))
       (fun e =>
          match e with
          | KeyError _ => raise (ValueError missing_id_message)
          | UnregisteredEnv _ =>
              and_then (lift (getitem d "import_module")) (fun hint =>
              and_then (print [VStr "import_module"; hint]) (fun _ =>
              and_then (lift (getitem d "id")) (fun id =>
              raise (UnregisteredEnv (unregistered_message (str id))))))
          | _ => raise e
          end))
    (fun env =>
       try_except (configure_and_reset env d)
         (fun e =>
            match e with
            | AttributeError what =>
                and_then
                  (logger_info
                     ("This environment does not support configuration. " ++ what))
                  (fun _ => ret env)
            | _ => raise e
            end)) w1.
Proof.
  intros Himp. unfold load_environment.
  unfold and_then at 1. unfold ret at 1.
  unfold and_then at 1. unfold ret at 1.
  unfold and_then at 1. rewrite Himp. reflexivity.
Qed.

End LoadEnvironmentLemmas.

(** C6, as stated, fails: a mapping without ['id'] that names a module which
    cannot be imported makes the call raise the import error; the
    register-id error is not reached. *)
Lemma load_environment_missing_id_import_fails :
  get [("import_module", VStr "no_such_module")] "id" = None /\
  load_environment no_json (Mapping [("import_module", VStr "no_such_module")])
    VNone world0
  = (Raise (ModuleNotFoundError "no_such_module"), world0).
Proof. split; reflexivity. Qed.

(** C6 (amended): for every call with a configuration mapping that lacks the
    ['id'] key and whose import step (lines 199 and 200) completes, either
    because no true [import_module] is given or because the module is
    imported, a [ValueError] is raised stating that the register-id of the
    environment must be provided. *)
Theorem load_environment_missing_id
    (json_loads : string -> option value) (d : dict) (mode : value) (w : world) :
  get d "id" = None ->
  fst (import_step d w) = Return tt ->
  fst (load_environment json_loads (Mapping d) mode w)
  = Raise (ValueError "The gym register-id of the environment must be provided").
Proof.
  intros Hid Himp.
  destruct (import_step d w) as [r w1] eqn:E. cbn [fst] in Himp. subst r.
  rewrite (load_environment_after_import json_loads d mode w w1 E).
  unfold and_then, try_except, lift, getitem. rewrite Hid. reflexivity.
Qed.

Lemma load_environment_missing_id_witness :
  fst (load_environment no_json (Mapping [("render", VBool true)]) VNone world0)
  = Raise (ValueError "The gym register-id of the environment must be provided").
Proof. apply load_environment_missing_id; reflexivity. Defined.

(** C4, as stated, fails: the identifier is not registered, but the module
    that the configuration names cannot be imported, and the error raised is
    the import error. *)
Lemma load_environment_unregistered_import_fails :
  get (registry world0) "Unknown-v0" = None /\
  load_environment no_json
    (Mapping [("id", VStr "Unknown-v0"); ("import_module", VStr "no_such_module")])
    VNone world0
  = (Raise (ModuleNotFoundError "no_such_module"), world0).
Proof. split; reflexivity. Qed.

(** When the configuration has no [import_module] key at all, the handler of
    the unregistered-environment error fails on its own lookup
    [env_config["import_module"]] (line 209), and the error raised is that
    key-lookup error. *)
Lemma load_environment_unregistered_without_import_module_key :
  load_environment no_json (Mapping [("id", VStr "Unknown-v0")]) VNone world0
  = (Raise (KeyError "import_module"), world0).
Proof. reflexivity. Qed.

(** The factory makes or refuses an environment and leaves the world as it
    is. *)
Lemma gym_make_keeps_world (id mode : value) (w : world) :
  snd (gym_make id mode w) = w.
Proof.
  destruct id; try reflexivity. unfold gym_make.
  destruct (get (registry w) s); [reflexivity|].
  destruct (resolve_unlisted w (registry w) s) as [s'| | |]; try reflexivity.
  destruct (get (registry w) s'); reflexivity.
Qed.

(** C4 (amended): for every call whose configuration contains the
    [import_module] key, whose import step (lines 199 and 200) completes, and
    for whose identifier the environment factory raises its
    unregistered-environment error, the error raised is the
    unregistered-environment error, distinct from the missing-identifier
    error, and its message names the [import_module] key. *)
Theorem load_environment_unregistered
    (json_loads : string -> option value) (d : dict) (mode : value) (w : world)
    (id : string) (hint : value) (msg : string) :
  get d "id" = Some (VStr id) ->
  get d "import_module" = Some hint ->
  fst (import_step d w) = Return tt ->
  fst (gym_make (VStr id) mode (snd (import_step d w)))
    = Raise (UnregisteredEnv msg) ->
  fst (load_environment json_loads (Mapping d) mode w)
    = Raise (UnregisteredEnv (unregistered_message id)) /\
  occurs "import_module" (unregistered_message id) = true.
Proof.
  intros Hid Hhint Himp Hmake. split.
  - destruct (import_step d w) as [r w1] eqn:E. cbn [fst snd] in Himp, Hmake.
    subst r.
    rewrite (load_environment_after_import json_loads d mode w w1 E).
    unfold and_then at 1. unfold try_except.
    unfold and_then at 1. unfold lift at 1. unfold getitem at 1. rewrite Hid.
    unfold and_then at 1.
    destruct (gym_make (VStr id) mode w1) as [made w2] eqn:G.
    cbn [fst] in Hmake. subst made.
    unfold and_then, lift, getitem, print, modify, raise.
    rewrite Hhint, Hid. reflexivity.
  - apply unregistered_message_names_import_module.
Qed.

Lemma load_environment_unregistered_witness :
  fst (load_environment no_json
         (Mapping [("id", VStr "Unknown-v0"); ("import_module", VNone)])
         VNone world0)
    = Raise (UnregisteredEnv (unregistered_message "Unknown-v0")) /\
  occurs "import_module" (unregistered_message "Unknown-v0") = true.
Proof.
  apply (load_environment_unregistered no_json _ VNone world0 "Unknown-v0"
           VNone "Unknown-v0");
    reflexivity.
Defined.

End EnvFactorySpec.

(** ** Properties of the configuration lookup *)

Module ConfigSpec.
Import Py PyFacts Naming NamingFacts Config.

Lemma get_map_values {A B : Type} (g : string -> A -> B)
    (d : list (string * A)) (k : string) :
  get (map (fun kv : string * A => let (k0, x) := kv in (k0, g k0 x)) d) k =
  match get d k with
  | Some x => Some (g k x)
  | None => None
  end.
Proof.
  induction d as [|[k' x] d IH]; simpl; [reflexivity|].
  destruct (String.eqb_spec k' k) as [->|]; [reflexivity | exact IH].
Qed.

Section Lookup.

Variable repr_str : string -> string.
Variable key : string.

Lemma get_cfg_value_missing (d : dict) :
  get d key = None ->
  get_cfg_value repr_str (VDict d) key = scan repr_str key d (keys d).
Proof. intros H. cbn [get_cfg_value]. rewrite H. reflexivity. Qed.

Lemma scan_step (d : dict) (k : string) (rest : list string) :
  scan repr_str key d (k :: rest) =
  match get d k with
  | Some (VDict sub) =>
      match get_cfg_value repr_str (VDict sub) key with
      | Raise e => Raise e
      | Return VNone => scan repr_str key d rest
      | Return res => Return res
      end
  | _ => scan repr_str key d rest
  end.
Proof.
  cbn [scan].
  rewrite (get_map_values
             (fun _ x => match x with
                         | VDict _ => Some (get_cfg_value repr_str x key)
                         | _ => None
                         end) d k).
  destruct (get d k) as [[ | | | | | | | sub]|]; reflexivity.
Qed.

Lemma scan_returns_str (d : dict) :
  Forall (fun kv => returns_str repr_str key (snd kv)) d ->
  forall ks, exists s, scan repr_str key d ks = Return (VStr s).
Proof.
  intros IH ks. induction ks as [|k rest IHks].
  - now exists "None".
  - rewrite scan_step. destruct (get d k) as [x|] eqn:Hk; [|exact IHks].
    destruct x; try exact IHks.
    apply get_Some_In in Hk. rewrite Forall_forall in IH.
    destruct (IH _ Hk) as [s Hs]. cbn [snd returns_str] in Hs.
    rewrite Hs. now exists s.
Qed.

Lemma get_cfg_value_returns_str (v : value) : returns_str repr_str key v.
Proof.
  induction v as [ | b | n | s | | l IH | l IH | d IH ] using value_induction;
    try exact I.
  cbn [returns_str]. destruct (get d key) as [x|] eqn:Hk.
  - cbn [get_cfg_value]. rewrite Hk. destruct x; eexists; reflexivity.
  - rewrite (get_cfg_value_missing d Hk). now apply scan_returns_str.
Qed.

Lemma scan_flat_prefix (d : dict) (pre : list string) (rest : list string) :
  (forall k, In k pre ->
     match get d k with Some (VDict _) => False | _ => True end) ->
  scan repr_str key d (pre ++ rest) = scan repr_str key d rest.
Proof.
  induction pre as [|k pre IH]; intros Hpre; [reflexivity|].
  cbn [app]. rewrite scan_step.
  assert (Hk := Hpre k (or_introl Logic.eq_refl)).
  assert (Hrest : scan repr_str key d (pre ++ rest) = scan repr_str key d rest)
    by (apply IH; intros k' Hk'; apply Hpre; now right).
  destruct (get d k) as [[ | | | | | | | sub]|]; try exact Hrest. destruct Hk.
Qed.

End Lookup.

Lemma flat_get (d : dict) (k : string) :
  flat d = true ->
  match get d k with Some (VDict _) => False | _ => True end.
Proof.
  unfold flat. rewrite forallb_forall. intros H.
  destruct (get d k) as [x|] eqn:Hk; [|exact I].
  apply get_Some_In in Hk. specialize (H _ Hk). cbn [snd] in H.
  destruct x; try exact I. discriminate.
Qed.

Lemma get_app {A : Type} (d1 d2 : list (string * A)) (k : string) :
  get (d1 ++ d2)%list k =
  match get d1 k with
  | Some v => Some v
  | None => get d2 k
  end.
Proof.
  induction d1 as [|[k' v] d1 IH]; simpl; [reflexivity|].
  destruct (String.eqb_spec k' k); [reflexivity | exact IH].
Qed.

Lemma distinct_app_head (pre post : list string) (k : string) :
  distinct (pre ++ k :: post)%list = true -> ~ In k pre.
Proof.
  rewrite distinct_NoDup. intros H Hin.
  apply NoDup_remove_2 in H. apply H. apply in_or_app. now left.
Qed.

(** X1: on a mapping, whatever [get_cfg_value] returns is a string and never
    [None], for a key that is found as for one that is not: the test
    [res is not None] of line 60 passes for every result of the recursive
    call, and the caller cannot tell an absent key by a [None]. *)
Theorem get_cfg_value_mapping_returns_string
    (repr_str : string -> string) (d : dict) (key : string) (res : value) :
  get_cfg_value repr_str (VDict d) key = Return res ->
  res <> VNone /\ exists s : string, res = VStr s.
Proof.
  intros Hres.
  destruct (get_cfg_value_returns_str repr_str key (VDict d)) as [s Hs].
  cbn [returns_str] in Hs. rewrite Hs in Hres. injection Hres as <-.
  split; [discriminate | now exists s].
Qed.

Lemma get_cfg_value_mapping_returns_string_witness :
  VStr "None" <> VNone /\ exists s : string, VStr "None" = VStr s.
Proof.
  apply (get_cfg_value_mapping_returns_string quote_plain
           [("env", VDict [("task", VStr "run")])] "lr" (VStr "None")).
  reflexivity.
Defined.

(** X2: when the mapping does not hold the key itself, the first nested
    mapping, in insertion order, decides the result: the result is the result
    of the lookup in that nested mapping, and the later entries are never
    searched. *)
Theorem get_cfg_value_first_nested_decides
    (repr_str : string -> string) (key k : string)
    (pre post sub : dict) :
  distinct (keys (pre ++ (k, VDict sub) :: post)%list) = true ->
  flat pre = true ->
  get (pre ++ (k, VDict sub) :: post)%list key = None ->
  get_cfg_value repr_str (VDict (pre ++ (k, VDict sub) :: post)%list) key =
  get_cfg_value repr_str (VDict sub) key.
Proof.
  intros Hd Hflat Hkey.
  rewrite (get_cfg_value_missing repr_str key _ Hkey).
  unfold keys in *. rewrite map_app in *. cbn [map fst] in *.
  assert (Hk : ~ In k (map fst pre)) by (eapply distinct_app_head; eassumption).
  assert (Hget : get (pre ++ (k, VDict sub) :: post)%list k = Some (VDict sub)).
  { rewrite get_app. replace (get pre k) with (@None value).
    - simpl. now rewrite String.eqb_refl.
    - symmetry. now apply get_None_not_In. }
  rewrite scan_flat_prefix.
  - rewrite scan_step, Hget.
    destruct (get_cfg_value_returns_str repr_str key (VDict sub)) as [s Hs].
    cbn [returns_str] in Hs. now rewrite Hs.
  - intros k' Hk'. rewrite get_app.
    destruct (get_In_keys pre k' Hk') as [x Hx]. rewrite Hx.
    generalize (flat_get pre k' Hflat). now rewrite Hx.
Qed.

Lemma get_cfg_value_first_nested_decides_witness :
  get_cfg_value quote_plain
    (VDict ([("seed", VInt 10)] ++
            ("env", VDict [("task", VStr "run")]) ::
            [("policy", VDict [("lr", VInt 3)])])%list) "lr"
  = get_cfg_value quote_plain (VDict [("task", VStr "run")]) "lr".
Proof.
  apply get_cfg_value_first_nested_decides; reflexivity.
Defined.

(** X3: for a key that neither the mapping nor any nested mapping can hold,
    the mapping having only values that are not mappings, the result is the
    string "None", the same string that a stored [None] gives. *)
Theorem get_cfg_value_absent_key_is_none_string
    (repr_str : string -> string) (d : dict) (key : string) :
  flat d = true ->
  get d key = None ->
  get_cfg_value repr_str (VDict d) key = Return (VStr "None") /\
  get_cfg_value repr_str (VDict ((key, VNone) :: d)) key = Return (VStr "None").
Proof.
  intros Hflat Hkey. split.
  - rewrite (get_cfg_value_missing repr_str key d Hkey).
    rewrite <- (app_nil_r (keys d)). rewrite scan_flat_prefix; [reflexivity|].
    intros k _. now apply flat_get.
  - cbn [get_cfg_value get]. now rewrite String.eqb_refl.
Qed.

Lemma get_cfg_value_absent_key_is_none_string_witness :
  get_cfg_value quote_plain (VDict [("seed", VInt 10)]) "lr"
    = Return (VStr "None") /\
  get_cfg_value quote_plain (VDict [("lr", VNone); ("seed", VInt 10)]) "lr"
    = Return (VStr "None").
Proof.
  apply get_cfg_value_absent_key_is_none_string; reflexivity.
Defined.

Lemma fold_left_append (f : value -> string) (l : list value) :
  forall acc,
    fold_left (fun suffix i => suffix ++ f i) l acc
    = acc ++ String.concat "" (map f l).
Proof.
  induction l as [|x l IH]; intros acc; cbn [fold_left map].
  - cbn [String.concat]. clear. induction acc; simpl; congruence.
  - rewrite IH. rewrite append_assoc. f_equal.
    destruct l as [|y l]; cbn [map String.concat]; [|reflexivity].
    clear. induction (f x); simpl; congruence.
Qed.

(** X4: a list stored under the key is rendered as the string forms of its
    elements one after the other, with no separator between them. *)
Theorem get_cfg_value_list_concatenated
    (repr_str : string -> string) (d : dict) (key : string) (l : list value) :
  get d key = Some (VList l) ->
  get_cfg_value repr_str (VDict d) key
  = Return (VStr (String.concat "" (map (str_any repr_str) l))).
Proof.
  intros Hkey. cbn [get_cfg_value]. rewrite Hkey.
  now rewrite fold_left_append.
Qed.

Lemma get_cfg_value_list_concatenated_witness :
  get_cfg_value quote_plain
    (VDict [("hidden_sizes", VList [VInt 128; VInt 64; VStr "x"])]) "hidden_sizes"
  = Return (VStr "12864x").
Proof.
  apply (get_cfg_value_list_concatenated quote_plain _ "hidden_sizes"
           [VInt 128; VInt 64; VStr "x"]).
  reflexivity.
Defined.

Lemma fold_max_ge (l : list string) :
  forall acc,
    acc <= fold_left (fun d2 d => Nat.max d2 (len_str d)) l acc /\
    Forall (fun k => len_str k <= fold_left (fun d2 d => Nat.max d2 (len_str d)) l acc) l.
Proof.
  induction l as [|k l IH]; intros acc; cbn [fold_left].
  - split; [lia | constructor].
  - destruct (IH (Nat.max acc (len_str k))) as [Hacc Hall]. split; [lia|].
    constructor; [lia | exact Hall].
Qed.

Lemma fold_max_attained (l : list string) :
  forall acc,
    fold_left (fun d2 d => Nat.max d2 (len_str d)) l acc = acc \/
    Exists (fun k => len_str k = fold_left (fun d2 d => Nat.max d2 (len_str d)) l acc) l.
Proof.
  induction l as [|k l IH]; intros acc; cbn [fold_left].
  - now left.
  - destruct (IH (Nat.max acc (len_str k))) as [Heq | Hex].
    + rewrite Heq. destruct (Nat.max_spec acc (len_str k)) as [[_ ->] | [_ ->]].
      * right. now constructor.
      * now left.
    + right. now apply Exists_cons_tl.
Qed.

(** X5: [dict_dims] returns the number of entries of the mapping and the
    length of its longest key: every key is at most that long, some key is
    exactly that long, and the values play no part.  The empty mapping gives
    [(0, 0)]. *)
Theorem dict_dims_counts_entries_and_longest_key (mydict : dict) :
  fst (dict_dims mydict) = List.length mydict /\
  Forall (fun k => len_str k <= snd (dict_dims mydict)) (keys mydict) /\
  match mydict with
  | [] => snd (dict_dims mydict) = 0
  | _ :: _ => Exists (fun k => len_str k = snd (dict_dims mydict)) (keys mydict)
  end.
Proof.
  unfold dict_dims. cbn [fst snd]. split; [reflexivity | split].
  - apply fold_max_ge.
  - destruct mydict as [|kv rest]; [reflexivity|].
    destruct (fold_max_attained (keys (kv :: rest)) 0) as [H0 | Hex]; [|exact Hex].
    rewrite H0. constructor.
    destruct (fold_max_ge (keys (kv :: rest)) 0) as [_ Hall].
    rewrite H0 in Hall. inversion Hall; subst. lia.
Qed.

End ConfigSpec.

(** ** Further properties of the name synthesis *)

Module NamingMore.
Import Py PyFacts Naming NamingFacts.

(** X6: a mapping is rendered as the list of its values taken in sorted key
    order: the key names themselves never appear in the result. *)
Theorem to_string_mapping_as_sorted_values (d : dict) :
  to_string (VDict d) =
  to_string (VList (map (fun k => match get d k with
                                  | Some v => v
                                  | None => VNone
                                  end)
                        (sorted (keys d)))).
Proof.
  rewrite to_string_dict.
  change (to_string (VList ?l)) with (join_from 0 "" (map to_string l)).
  rewrite map_map. f_equal. apply map_ext_in. intros k Hk.
  rewrite (ConfigSpec.get_map_values (fun _ v => to_string v) d k).
  apply (proj1 (sorted_In _ _)) in Hk. destruct (get_In_keys d k Hk) as [v Hv].
  now rewrite Hv.
Qed.

Lemma concat_app_nonempty (sep : string) (xs ys : list string) :
  xs <> [] -> ys <> [] ->
  String.concat sep (xs ++ ys)%list
  = String.concat sep xs ++ sep ++ String.concat sep ys.
Proof.
  intros Hxs Hys. induction xs as [|x xs IH]; [congruence|].
  destruct xs as [|x' xs].
  - destruct ys; [congruence | reflexivity].
  - change (String.concat sep ((x :: x' :: xs) ++ ys)%list)
      with (x ++ sep ++ String.concat sep ((x' :: xs) ++ ys)%list).
    rewrite IH by discriminate.
    change (String.concat sep (x :: x' :: xs))
      with (x ++ sep ++ String.concat sep (x' :: xs)).
    now rewrite !append_assoc.
Qed.

Lemma concat_nonempty (ls : list (list value)) :
  ls <> [] -> Forall (fun l => l <> []) ls -> List.concat ls <> [].
Proof.
  destruct ls as [|l ls]; [congruence|]. intros _ H.
  inversion H as [|? ? Hl _]; subst. destruct l; [congruence|]. discriminate.
Qed.

(** X7: nesting is lost in the rendering: a list of non-empty lists is
    rendered exactly like the flat list of all their elements, so different
    values can share one name. *)
Theorem to_string_flattens_nested_lists (ls : list (list value)) :
  Forall (fun l => l <> []) ls ->
  to_string (VList (map VList ls)) = to_string (VList (List.concat ls)).
Proof.
  intros Hne.
  change (to_string (VList ?l)) with (join_from 0 "" (map to_string l)).
  rewrite !join_from_concat, map_map.
  induction Hne as [|l ls Hl Hls IH]; [reflexivity|].
  cbn [List.concat map]. rewrite map_app.
  change (to_string (VList l)) with (join_from 0 "" (map to_string l)).
  rewrite join_from_concat.
  destruct ls as [|l' ls].
  - cbn [List.concat map]. now rewrite app_nil_r.
  - rewrite concat_app_nonempty.
    + rewrite <- IH. reflexivity.
    + destruct l; [congruence | discriminate].
    + intros Hnil. apply map_eq_nil in Hnil.
      revert Hnil. apply concat_nonempty; [discriminate | assumption].
Qed.

Lemma to_string_flattens_nested_lists_witness :
  to_string (VList (map VList [[VInt 1; VInt 2]; [VInt 3]]))
  = to_string (VList (List.concat [[VInt 1; VInt 2]; [VInt 3]])).
Proof.
  apply to_string_flattens_nested_lists.
  repeat constructor; discriminate.
Defined.

(** The loop reads the two configurations through key lookup only. *)
Lemma auto_name_loop_ext (d1 c1 d2 c2 : dict) (skip : list string)
    (abbre : list (string * string)) (ks : list string) :
  (forall k, In k ks -> get d1 k = get d2 k /\ get c1 k = get c2 k) ->
  forall name,
    auto_name_loop d1 c1 skip abbre ks name
    = auto_name_loop d2 c2 skip abbre ks name.
Proof.
  induction ks as [|k ks IH]; intros Hks name; [reflexivity|].
  destruct (Hks k (or_introl Logic.eq_refl)) as [Hd Hc].
  assert (IH' := IH (fun k' Hk' => Hks k' (or_intror Hk'))).
  cbn [auto_name_loop]. unfold getitem. rewrite Hd, Hc.
  destruct (get d2 k) as [dv|]; [|reflexivity]. cbn [bind].
  destruct (get c2 k) as [cv|]; [|reflexivity]. cbn [bind].
  destruct (eq dv cv || mem k skip); apply IH'.
Qed.

Lemma auto_name_loop_no_difference (default_cfg current_cfg : dict)
    (skip : list string) (abbre : list (string * string)) (name : string) :
  forall ks,
    (forall k, In k ks ->
       exists dv cv, get default_cfg k = Some dv /\ get current_cfg k = Some cv /\
                     eq dv cv || mem k skip = true) ->
    auto_name_loop default_cfg current_cfg skip abbre ks name = Return name.
Proof.
  induction ks as [|k ks IH]; intros Hks; [reflexivity|].
  destruct (Hks k (or_introl Logic.eq_refl)) as (dv & cv & Hd & Hc & Hskip).
  cbn [auto_name_loop]. unfold getitem. rewrite Hd, Hc. cbn [bind].
  rewrite Hskip. apply IH. intros k' Hk'. apply Hks. now right.
Qed.

(** X8: when every key of the default configuration is present in the current
    one and is either unchanged or listed in [skip_keys], no key enters the
    name: the name is the prefix and the suffix, joined by an underscore when
    both are given, and the word "default" only when both are empty,
    followed by the dash and the four characters. *)
Theorem auto_name_without_difference (default_cfg current_cfg : dict)
    (skip : list string) (abbre : list (string * string))
    (prefix suffix : string) (u : N) :
  (forall k dv, get default_cfg k = Some dv ->
     exists cv, get current_cfg k = Some cv /\ eq dv cv || mem k skip = true) ->
  auto_name default_cfg current_cfg skip abbre prefix suffix u =
  Return ((match prefix, suffix with
           | EmptyString, EmptyString => "default"
           | EmptyString, _ => suffix
           | _, EmptyString => prefix
           | _, _ => prefix ++ "_" ++ suffix
           end) ++ "-" ++ substring 0 4 (uuid_str u)).
Proof.
  intros H. unfold auto_name.
  rewrite auto_name_loop_no_difference.
  - cbn [bind]. destruct prefix, suffix; reflexivity.
  - intros k Hk. apply (proj1 (sorted_In _ _)) in Hk.
    destruct (get_In_keys default_cfg k Hk) as [dv Hd].
    destruct (H k dv Hd) as (cv & Hc & Hs). now exists dv, cv.
Qed.

Lemma auto_name_without_difference_witness :
  auto_name [("cost_limit", VInt 1); ("epoch", VInt 100)]
            [("epoch", VInt 300); ("cost_limit", VInt 1)]
            DEFAULT_SKIP_KEY DEFAULT_KEY_ABBRE "ppo" "v2" 0
  = Return ("ppo_v2" ++ "-" ++ substring 0 4 (uuid_str 0)).
Proof.
  apply (auto_name_without_difference
           [("cost_limit", VInt 1); ("epoch", VInt 100)]
           [("epoch", VInt 300); ("cost_limit", VInt 1)]
           DEFAULT_SKIP_KEY DEFAULT_KEY_ABBRE "ppo" "v2" 0).
  intros k dv. cbn [get].
  destruct (String.eqb_spec "cost_limit" k) as [<-|_].
  - intros [= <-]. now exists (VInt 1).
  - destruct (String.eqb_spec "epoch" k) as [<-|_]; [|discriminate].
    intros [= <-]. now exists (VInt 300).
Defined.

(** X9: keys that only the current configuration has are ignored: adding
    entries whose keys the default configuration does not have changes
    neither the name nor an error. *)
Theorem auto_name_ignores_extra_keys (default_cfg current_cfg extra : dict)
    (skip : list string) (abbre : list (string * string))
    (prefix suffix : string) (u : N) :
  (forall k, In k (keys extra) -> ~ In k (keys default_cfg)) ->
  auto_name default_cfg (current_cfg ++ extra)%list skip abbre prefix suffix u
  = auto_name default_cfg current_cfg skip abbre prefix suffix u.
Proof.
  intros Hextra. unfold auto_name. f_equal.
  apply auto_name_loop_ext. intros k Hk. split; [reflexivity|].
  rewrite ConfigSpec.get_app. destruct (get current_cfg k); [reflexivity|].
  apply get_None_not_In. intros Hin. apply (Hextra k Hin).
  now apply (proj1 (sorted_In _ _)) in Hk.
Qed.

Lemma auto_name_ignores_extra_keys_witness :
  auto_name [("cost_limit", VInt 1)]
            ([("cost_limit", VInt 5)] ++ [("gamma", VInt 9)])%list
            DEFAULT_SKIP_KEY DEFAULT_KEY_ABBRE "" "" 7
  = auto_name [("cost_limit", VInt 1)] [("cost_limit", VInt 5)]
              DEFAULT_SKIP_KEY DEFAULT_KEY_ABBRE "" "" 7.
Proof.
  apply auto_name_ignores_extra_keys.
  intros k [<- | []] [H | []]. discriminate H.
Defined.

(** X10: the name does not depend on the order in which the keys of the two
    configurations were inserted. *)
Theorem auto_name_insertion_order_irrelevant
    (default_cfg default_cfg' current_cfg current_cfg' : dict)
    (skip : list string) (abbre : list (string * string))
    (prefix suffix : string) (u : N) :
  distinct (keys default_cfg) = true ->
  distinct (keys current_cfg) = true ->
  Permutation default_cfg default_cfg' ->
  Permutation current_cfg current_cfg' ->
  auto_name default_cfg current_cfg skip abbre prefix suffix u
  = auto_name default_cfg' current_cfg' skip abbre prefix suffix u.
Proof.
  intros Hd Hc Hpd Hpc. unfold auto_name.
  rewrite (sorted_Permutation (keys default_cfg) (keys default_cfg'))
    by (unfold keys; now apply Permutation_map).
  f_equal. apply auto_name_loop_ext. intros k _. split.
  - apply get_Permutation; [now apply distinct_NoDup | assumption].
  - apply get_Permutation; [now apply distinct_NoDup | assumption].
Qed.

Lemma auto_name_insertion_order_irrelevant_witness :
  auto_name [("b", VInt 1); ("a", VInt 2)] [("a", VInt 3); ("b", VInt 4)]
            DEFAULT_SKIP_KEY DEFAULT_KEY_ABBRE "" "" 7
  = auto_name [("a", VInt 2); ("b", VInt 1)] [("b", VInt 4); ("a", VInt 3)]
              DEFAULT_SKIP_KEY DEFAULT_KEY_ABBRE "" "" 7.
Proof.
  apply auto_name_insertion_order_irrelevant;
    [reflexivity | reflexivity | apply perm_swap | apply perm_swap].
Defined.

(** X11: whenever [auto_name] returns, the name is a non-empty stem followed
    by a dash and exactly four characters of the identifier drawn. *)
Theorem auto_name_shape (default_cfg current_cfg : dict)
    (skip : list string) (abbre : list (string * string))
    (prefix suffix : string) (u : N) (name : string) :
  auto_name default_cfg current_cfg skip abbre prefix suffix u = Return name ->
  exists stem tail : string,
    name = stem ++ "-" ++ tail /\
    stem <> "" /\ tail = substring 0 4 (uuid_str u) /\ String.length tail = 4.
Proof.
  unfold auto_name.
  destruct (auto_name_loop _ _ _ _ _ _) as [body|e]; cbn [bind]; [|discriminate].
  intros [= <-]. eexists. exists (substring 0 4 (uuid_str u)).
  split; [reflexivity|]. split; [|split; [reflexivity | apply length_uuid_prefix]].
  destruct (String.length (if negb (String.length suffix =? 0)%nat then _ else _)
              =? 0)%nat eqn:E.
  - discriminate.
  - intros Hnil. rewrite Hnil in E. discriminate.
Qed.

Lemma auto_name_shape_witness :
  exists stem tail : string,
    "cost5-0000" = stem ++ "-" ++ tail /\
    stem <> "" /\ tail = substring 0 4 (uuid_str 0) /\ String.length tail = 4.
Proof.
  apply (auto_name_shape [("cost_limit", VInt 1)] [("cost_limit", VInt 5)]
           DEFAULT_SKIP_KEY DEFAULT_KEY_ABBRE "" "" 0 "cost5-0000").
  reflexivity.
Defined.

End NamingMore.

(** ** Further properties of the seeding *)

Module SeedingMore.
Import Py Seeding SeedingSpec.
Local Open Scope Z_scope.

Lemma in_range_true (seed : Z) :
  0 <= seed < 2 ^ 32 -> ((0 <=? seed) && (seed <? 2 ^ 32))%bool = true.
Proof.
  intros H. apply andb_true_iff. split; [apply Z.leb_le | apply Z.ltb_lt]; lia.
Qed.

Lemma get_setitem_same {A : Type} (d : list (string * A)) (k : string) (v : A) :
  get (setitem d k v) k = Some v.
Proof.
  induction d as [|[k' v'] d IH]; simpl.
  - now rewrite String.eqb_refl.
  - destruct (String.eqb_spec k' k) as [->|Hne]; simpl.
    + now rewrite String.eqb_refl.
    + destruct (String.eqb_spec k' k); [contradiction | exact IH].
Qed.

Lemma get_setitem_other {A : Type} (d : list (string * A)) (k k0 : string) (v : A) :
  k0 <> k -> get (setitem d k v) k0 = get d k0.
Proof.
  intros Hne. induction d as [|[k' v'] d IH]; simpl.
  - destruct (String.eqb_spec k k0); [congruence | reflexivity].
  - destruct (String.eqb_spec k' k) as [->|Hk]; simpl.
    + destruct (String.eqb_spec k k0); [congruence | reflexivity].
    + destruct (String.eqb_spec k' k0); [reflexivity | exact IH].
Qed.

(** When no [seed] method raises, the loop seeds every item, in order. *)
Lemma seed_items_all (seed : Z) (items : list object) :
  Forall (seeds_without_error seed) items ->
  forall st,
    seed_items seed items st = (Return tt, with_calls st (calls_of seed items)).
Proof.
  induction 1 as [|o items Ho _ IH]; intros st.
  - cbn [seed_items calls_of]. unfold ret, with_calls.
    rewrite app_nil_r. now destruct st.
  - cbn [seed_items calls_of]. unfold seeds_without_error in Ho.
    destruct (seed_method o) as [m|]; [|apply IH].
    unfold and_then. rewrite (call_seed_returns o m seed st Ho), IH.
    unfold with_calls. cbn. now rewrite <- app_assoc.
Qed.

Lemma calls_of_In (seed : Z) (items : list object) (o : object)
    (m : Z -> option exn) :
  In o items -> seed_method o = Some m -> In (name o, seed) (calls_of seed items).
Proof.
  induction items as [|x items IH]; intros Hin Hm; [destruct Hin|].
  cbn [calls_of]. destruct Hin as [-> | Hin].
  - rewrite Hm. now left.
  - destruct (seed_method x); [right|]; now apply IH.
Qed.

(** X12: with a seed that the numeric library accepts and a collection none
    of whose [seed] methods raises, every item that has a [seed] method is
    seeded, once and in the order of the collection, and the call returns
    [None]. *)
Theorem seed_all_seeds_whole_collection (seed : Z) (items : list object)
    (st : store) :
  0 <= seed < 2 ^ 32 ->
  Forall (seeds_without_error seed) items ->
  exists st',
    seed_all seed (Some (collection items)) st = (Return VNone, st') /\
    seed_calls st' = (seed_calls st ++ calls_of seed items)%list /\
    seeds_every_item seed items st'.
Proof.
  intros Hseed Hitems.
  unfold seed_all, and_then, random_seed_set, environ_set, np_random_seed,
    torch_seeds_set, modify.
  rewrite (in_range_true seed Hseed).
  cbn [collection self seed_method iter]. unfold try_except.
  rewrite (seed_items_all seed items Hitems).
  eexists. split; [reflexivity|]. split; [reflexivity|].
  intros o m Hin Hm. cbn [with_calls seed_calls]. apply in_or_app. right.
  now apply (calls_of_In seed items o m).
Qed.

Lemma seed_all_seeds_whole_collection_witness :
  exists st',
    seed_all 1029 (Some (collection [seedable "env"; mkObject "x" None;
                                     seedable "space"])) store0
      = (Return VNone, st') /\
    seed_calls st' = [("env"%string, 1029); ("space"%string, 1029)] /\
    seeds_every_item 1029 [seedable "env"; mkObject "x" None; seedable "space"] st'.
Proof.
  apply (seed_all_seeds_whole_collection 1029
           [seedable "env"; mkObject "x" None; seedable "space"] store0).
  - lia.
  - repeat constructor.
Defined.

(** X13: an object that has a [seed] method itself is seeded once and is not
    iterated; the call then returns [True], and an error raised by that
    method is not caught: it reaches the caller. *)
Theorem seed_all_single_object (seed : Z) (o : others_arg)
    (m : Z -> option exn) (st : store) :
  0 <= seed < 2 ^ 32 ->
  seed_method (self o) = Some m ->
  fst (seed_all seed (Some o) st)
    = match m seed with
      | None => Return (VBool true)
      | Some e => Raise e
      end /\
  seed_calls (snd (seed_all seed (Some o) st))
    = (seed_calls st ++ [(name (self o), seed)])%list.
Proof.
  intros Hseed Hm.
  unfold seed_all, and_then, random_seed_set, environ_set, np_random_seed,
    torch_seeds_set, modify.
  rewrite (in_range_true seed Hseed). rewrite Hm.
  unfold call_seed, and_then, modify.
  destruct (m seed); split; reflexivity.
Qed.

Lemma seed_all_single_object_witness :
  fst (seed_all 7 (Some (mkOthers (failing "env") (Some [seedable "inner"]))) store0)
    = Raise (RuntimeError "cannot seed") /\
  seed_calls (snd (seed_all 7 (Some (mkOthers (failing "env")
                                       (Some [seedable "inner"]))) store0))
    = [("env"%string, 7)].
Proof.
  apply (seed_all_single_object 7
           (mkOthers (failing "env") (Some [seedable "inner"]))
           (fun _ => Some (RuntimeError "cannot seed")) store0).
  - lia.
  - reflexivity.
Defined.

(** X14: with a seed that the numeric library accepts, whatever is passed as
    [others] without a [seed] method of its own, a collection, an object that
    cannot be iterated, or nothing at all, never makes the call raise: the
    result is [None]. *)
Theorem seed_all_never_raises_on_items (seed : Z) (others : option others_arg)
    (st : store) :
  0 <= seed < 2 ^ 32 ->
  match others with
  | Some o => seed_method (self o) = None
  | None => True
  end ->
  fst (seed_all seed others st) = Return VNone.
Proof.
  intros Hseed Hothers.
  unfold seed_all, and_then, random_seed_set, environ_set, np_random_seed,
    torch_seeds_set, modify.
  rewrite (in_range_true seed Hseed).
  destruct others as [o|]; [|reflexivity]. rewrite Hothers.
  unfold try_except, and_then.
  destruct (iter o) as [items|].
  - destruct (seed_items seed items _) as [[[]|e] st']; reflexivity.
  - reflexivity.
Qed.

Lemma seed_all_never_raises_on_items_witness :
  fst (seed_all 1029 (Some (mkOthers (mkObject "number" None) None)) store0)
  = Return VNone.
Proof.
  apply (seed_all_never_raises_on_items 1029
           (Some (mkOthers (mkObject "number" None) None)) store0).
  - lia.
  - reflexivity.
Defined.

(** X15: a seed outside the 32-bit range that the numeric library accepts,
    and of at most 4300 digits so that its decimal form exists, makes the
    call raise [ValueError] half way: the general-purpose source and the
    hash-seed variable have been set by then, the numeric and tensor sources
    keep their former seeds, and nothing passed as [others] is seeded. *)
Theorem seed_all_rejects_seed_out_of_range (seed : Z)
    (others : option others_arg) (st : store) :
  seed < 0 \/ 2 ^ 32 <= seed ->
  printable seed = true ->
  exists st',
    seed_all seed others st
      = (Raise (ValueError "Seed must be between 0 and 2**32 - 1"), st') /\
    random_seed st' = Some seed /\
    get (environ st') "PYTHONHASHSEED" = Some (str_int seed) /\
    numpy_seed st' = numpy_seed st /\
    torch_seed st' = torch_seed st /\
    seed_calls st' = seed_calls st.
Proof.
  intros Hseed _.
  unfold seed_all, and_then, random_seed_set, environ_set, np_random_seed,
    modify, raise.
  replace ((0 <=? seed) && (seed <? 2 ^ 32))%bool with false.
  - eexists. split; [reflexivity|]. cbn.
    repeat split; try reflexivity. apply get_setitem_same.
  - symmetry. apply andb_false_iff.
    destruct Hseed; [left; apply Z.leb_gt | right; apply Z.ltb_ge]; lia.
Qed.

Lemma seed_all_rejects_seed_out_of_range_witness :
  exists st',
    seed_all (-1) (Some (collection [seedable "env"])) store0
      = (Raise (ValueError "Seed must be between 0 and 2**32 - 1"), st') /\
    random_seed st' = Some (-1) /\
    get (environ st') "PYTHONHASHSEED" = Some (str_int (-1)) /\
    numpy_seed st' = numpy_seed store0 /\
    torch_seed st' = torch_seed store0 /\
    seed_calls st' = seed_calls store0.
Proof.
  apply (seed_all_rejects_seed_out_of_range (-1)
           (Some (collection [seedable "env"])) store0).
  - left. lia.
  - now vm_compute.
Defined.

(** X16: after a call that is given an accepted seed and no other object,
    every random source holds that seed whatever it held before, the hash-seed
    variable holds its decimal form, the non-deterministic acceleration is off
    and the deterministic one on, and every other environment variable is as
    it was. *)
Theorem seed_all_fixes_every_source (seed : Z) (st : store) :
  0 <= seed < 2 ^ 32 ->
  exists st',
    seed_all seed None st = (Return VNone, st') /\
    random_seed st' = Some seed /\ numpy_seed st' = Some seed /\
    torch_seed st' = Some seed /\ cuda_seed st' = Some seed /\
    cuda_seed_all st' = Some seed /\
    cudnn_benchmark st' = false /\ cudnn_deterministic st' = true /\
    get (environ st') "PYTHONHASHSEED" = Some (str_int seed) /\
    (forall k, k <> "PYTHONHASHSEED"%string ->
               get (environ st') k = get (environ st) k).
Proof.
  intros Hseed.
  unfold seed_all, and_then, random_seed_set, environ_set, np_random_seed,
    torch_seeds_set, modify.
  rewrite (in_range_true seed Hseed).
  eexists. split; [reflexivity|]. cbn.
  repeat split; try reflexivity.
  - apply get_setitem_same.
  - intros k Hk. now apply get_setitem_other.
Qed.

Lemma seed_all_fixes_every_source_witness :
  exists st',
    seed_all 1029 None store0 = (Return VNone, st') /\
    random_seed st' = Some 1029 /\ numpy_seed st' = Some 1029 /\
    torch_seed st' = Some 1029 /\ cuda_seed st' = Some 1029 /\
    cuda_seed_all st' = Some 1029 /\
    cudnn_benchmark st' = false /\ cudnn_deterministic st' = true /\
    get (environ st') "PYTHONHASHSEED" = Some (str_int 1029) /\
    (forall k, k <> "PYTHONHASHSEED"%string ->
               get (environ st') k = get (environ store0) k).
Proof.
  apply (seed_all_fixes_every_source 1029 store0). lia.
Defined.

End SeedingMore.

(** ** Further properties of the loader *)

Module LoaderMore.
Import Py Loader NamingFacts.

Lemma str_int_inj (n m : Z) : str_int n = str_int m -> n = m.
Proof.
  unfold str_int. intros H.
  assert (Hnil : forall z, Z.to_int z <> Decimal.Pos Decimal.Nil /\
                           Z.to_int z <> Decimal.Neg Decimal.Nil).
  { intros [|p|p]; cbn; split; try discriminate; intros [= Hp];
      now apply (DecimalPos.Unsigned.to_uint_nonnil p). }
  apply DecimalZ.to_int_inj.
  assert (Hs : Some (Z.to_int n) = Some (Z.to_int m)).
  { rewrite <- (NilZero.isi (Z.to_int n)) by apply Hnil.
    rewrite <- (NilZero.isi (Z.to_int m)) by apply Hnil.
    now rewrite H. }
  now injection Hs.
Qed.

Lemma append_cancel_l (a b c : string) : a ++ b = a ++ c -> b = c.
Proof. induction a as [|x a IH]; simpl; [auto | intros [= H]; auto]. Qed.

Lemma append_cancel_r (c : string) :
  forall a b, a ++ c = b ++ c -> a = b.
Proof.
  induction a as [|x a IH]; intros [|y b] H; cbn [append] in H.
  - reflexivity.
  - exfalso. apply (f_equal String.length) in H.
    cbn [String.length] in H. rewrite length_append in H. lia.
  - exfalso. apply (f_equal String.length) in H.
    cbn [String.length] in H. rewrite length_append in H. lia.
  - injection H as -> H. f_equal. now apply IH.
Qed.

(** X17: without the best flag, two different epoch numbers never select the
    same checkpoint file, and the file of an epoch is neither the latest file
    [model.pt] nor the best file [model_best.pt]. *)
Theorem model_file_name_epochs_distinct (n m : Z) :
  (model_file_name false (Some n) = model_file_name false (Some m) -> n = m) /\
  model_file_name false (Some n) <> model_file_name false None /\
  model_file_name false (Some n) <> model_file_name true None.
Proof.
  unfold model_file_name. split; [|split].
  - intros H. apply (append_cancel_l "model_epoch-") in H.
    apply append_cancel_r in H. now apply str_int_inj.
  - discriminate.
  - discriminate.
Qed.

Section Failures.

Variable resolve : string -> option node.
Variable model : Type.
Variable yaml_load : string -> option value.
Variable torch_unpickle : string -> option model.

(** X18: when the directory exists but its configuration cannot be read, the
    file being absent, a directory, or text that the parser rejects, the call
    raises after opening [config.yaml] only: no checkpoint file is opened. *)
Theorem load_config_and_model_config_unreadable (path : string) (best : bool)
    (epoch : option Z) (tr : list event) :
  osp_exists resolve path = true ->
  (forall text, resolve (osp_join path "config.yaml") = Some (File text) ->
                yaml_load text = None) ->
  (exists e,
     fst (load_config_and_model resolve model yaml_load torch_unpickle
            path best epoch tr) = Raise e) /\
  snd (load_config_and_model resolve model yaml_load torch_unpickle
         path best epoch tr)
  = (tr ++ [ Printed ("load config from " ++ osp_join path "config.yaml");
             Opened (osp_join path "config.yaml") ])%list.
Proof.
  intros Hex Hcfg. unfold load_config_and_model. rewrite Hex.
  unfold and_then, print, emit, modify, open_read, and_then, emit, modify,
    ret, raise.
  destruct (resolve (osp_join path "config.yaml")) as [[|text]|] eqn:E;
    cbn [fst snd]; rewrite <- ?app_assoc.
  - split; [now eexists | reflexivity].
  - rewrite (Hcfg text Logic.eq_refl). cbn [fst snd].
    split; [now eexists | reflexivity].
  - split; [now eexists | reflexivity].
Qed.

(** X19: when the configuration has been read and the chosen checkpoint file
    is not there, the call raises an error after trying that one file: the
    files opened are [config.yaml] and the chosen checkpoint, and no other
    checkpoint is tried in its place. *)
Theorem load_config_and_model_checkpoint_missing (path : string) (best : bool)
    (epoch : option Z) (text : string) (config : value) (tr : list event) :
  osp_exists resolve path = true ->
  resolve (osp_join path "config.yaml") = Some (File text) ->
  yaml_load text = Some config ->
  resolve (osp_join path ("checkpoint/" ++ model_file_name best epoch)) = None ->
  (exists e,
     fst (load_config_and_model resolve model yaml_load torch_unpickle
            path best epoch tr) = Raise e) /\
  snd (load_config_and_model resolve model yaml_load torch_unpickle
         path best epoch tr)
  = (tr ++ [ Printed ("load config from " ++ osp_join path "config.yaml");
             Opened (osp_join path "config.yaml");
             Printed ("load model from " ++
                      osp_join path ("checkpoint/" ++ model_file_name best epoch));
             Opened (osp_join path ("checkpoint/" ++ model_file_name best epoch)) ])%list.
Proof.
  intros Hex Hcfg Hyaml Hckpt. split.
  - unfold load_config_and_model. rewrite Hex.
    unfold and_then, print, emit, modify, torch_load, open_read, and_then, emit,
      modify, ret, raise.
    rewrite Hcfg, Hyaml, Hckpt. now eexists.
  - now apply (LoaderSpec.load_config_and_model_trace resolve model yaml_load
                 torch_unpickle path best epoch text config tr).
Qed.

End Failures.

Lemma load_config_and_model_config_unreadable_witness :
  (exists e,
     fst (load_config_and_model (table [("empty", Directory)]) string
            yaml_text unpickle_text "empty" true None []) = Raise e) /\
  snd (load_config_and_model (table [("empty", Directory)]) string
         yaml_text unpickle_text "empty" true None [])
  = [ Printed "load config from empty/config.yaml";
      Opened "empty/config.yaml" ].
Proof.
  apply (load_config_and_model_config_unreadable (table [("empty", Directory)])
           string yaml_text unpickle_text "empty" true None []).
  - reflexivity.
  - intros text H. discriminate H.
Defined.

Lemma load_config_and_model_checkpoint_missing_witness :
  (exists e,
     fst (load_config_and_model (table run_files) string yaml_text unpickle_text
            "run" false (Some 7%Z) []) = Raise e) /\
  snd (load_config_and_model (table run_files) string yaml_text unpickle_text
         "run" false (Some 7%Z) [])
  = [ Printed "load config from run/config.yaml";
      Opened "run/config.yaml";
      Printed "load model from run/checkpoint/model_epoch-7.pt";
      Opened "run/checkpoint/model_epoch-7.pt" ].
Proof.
  apply (load_config_and_model_checkpoint_missing (table run_files) string
           yaml_text unpickle_text "run" false (Some 7%Z) "cost_limit: 1"
           (VStr "cost_limit: 1") []);
    reflexivity.
Defined.

End LoaderMore.

(** ** Further properties of the environment loader *)

Module EnvFactoryMore.
Import Py PyFacts EnvFactory EnvFactorySpec Samples.

(** Once the import step has completed and the identifier is registered, the
    call returns the environment made by the factory, configured and reset
    when it supports configuration, and logged as not configurable
    otherwise. *)
Lemma load_environment_made (json_loads : string -> option value) (d : dict)
    (mode : value) (w w1 : world) (id : string) (c : bool) :
  import_step d w = (Return tt, w1) ->
  get d "id" = Some (VStr id) ->
  get (registry w1) id = Some c ->
  exists w',
    load_environment json_loads (Mapping d) mode w =
    (Return (mkEnv id mode (get_or_none d "import_module") c
               (if c then Some d else None) (if c then 1 else 0)), w') /\
    registry w' = registry w1 /\
    if c then log w' = log w1
    else exists what,
           log w' = (log w1 ++
                     [("This environment does not support configuration. "
                       ++ what)%string])%list.
Proof.
  intros Himp Hid Hreg.
  rewrite (load_environment_after_import json_loads d mode w w1 Himp).
  unfold and_then, try_except, lift, getitem, gym_make. rewrite Hid, Hreg.
  destruct c; eexists; (split; [reflexivity|]); (split; [reflexivity|]).
  - reflexivity.
  - now exists "configure".
Qed.



(** X22: an environment that only the module named by [import_module]
    registers can be loaded in the same call: the import comes first, the
    registry gains the environments of the module, and the factory then finds
    the identifier, registered before the call or not. *)
Theorem load_environment_imports_then_makes
    (json_loads : string -> option value) (d : dict) (mode : value) (w : world)
    (id m : string) (envs : list (string * bool)) (c : bool) :
  get d "id" = Some (VStr id) ->
  get d "import_module" = Some (VStr m) ->
  m <> "" ->
  get (modules w) m = Some envs ->
  get envs id = Some c ->
  exists e w',
    load_environment json_loads (Mapping d) mode w = (Return e, w') /\
    env_id e = id /\ import_module e = VStr m /\ configurable e = c /\
    registry w' = (envs ++ registry w)%list.
Proof.
  intros Hid Hmod Hm Hw Henv.
  assert (Himp : import_step d w
                 = (Return tt, mkWorld (files w) (modules w)
                                 (envs ++ registry w)%list (resolve_unlisted w)
                                 (stdout w) (log w))).
  { unfold import_step, get_or_none, and_then, lift, getitem, import.
    rewrite Hmod. cbn [truthy]. destruct m; [congruence|].
    cbn [String.length Nat.eqb negb]. now rewrite Hw. }
  destruct (load_environment_made json_loads d mode w _ id c Himp Hid)
    as (w' & Hload & Hreg & _).
  - cbn [registry]. rewrite ConfigSpec.get_app. now rewrite Henv.
  - rewrite Hload. unfold get_or_none. rewrite Hmod.
    do 2 eexists. split; [reflexivity|]. cbn [env_id import_module configurable].
    repeat split. exact Hreg.
Qed.

Lemma load_environment_imports_then_makes_witness :
  get (registry sample_world) "Custom-v0" = None /\
  exists e w',
    load_environment no_json
      (Mapping [("id", VStr "Custom-v0"); ("import_module", VStr "my_envs")])
      VNone sample_world = (Return e, w') /\
    env_id e = "Custom-v0" /\ import_module e = VStr "my_envs" /\
    configurable e = true /\
    registry w' = ([("Custom-v0", true); ("Plain-v0", false)]
                   ++ registry sample_world)%list.
Proof.
  split; [reflexivity|].
  apply (load_environment_imports_then_makes no_json
           [("id", VStr "Custom-v0"); ("import_module", VStr "my_envs")]
           VNone sample_world "Custom-v0" "my_envs");
    try reflexivity.
  discriminate.
Defined.

(** X24: when the environment factory raises its unregistered-environment
    error for the identifier and the configuration has no [import_module] key
    at all, the error that reaches the caller is the key-lookup error of the
    handler's own [env_config["import_module"]], line 209, raised before
    anything is printed; the unregistered-environment error with its message
    is not raised. *)
Theorem load_environment_unregistered_without_key_raises_key_error
    (json_loads : string -> option value) (d : dict) (mode : value) (w : world)
    (id msg : string) :
  get d "id" = Some (VStr id) ->
  get d "import_module" = None ->
  fst (gym_make (VStr id) mode w) = Raise (UnregisteredEnv msg) ->
  load_environment json_loads (Mapping d) mode w
  = (Raise (KeyError "import_module"), w).
Proof.
  intros Hid Hmod Hmake.
  assert (Himp : import_step d w = (Return tt, w)).
  { unfold import_step, get_or_none. now rewrite Hmod. }
  rewrite (load_environment_after_import json_loads d mode w w Himp).
  unfold and_then at 1. unfold try_except.
  unfold and_then at 1. unfold lift at 1. unfold getitem at 1. rewrite Hid.
  unfold and_then at 1.
  assert (Hw := gym_make_keeps_world (VStr id) mode w).
  destruct (gym_make (VStr id) mode w) as [made w2].
  cbn [fst snd] in Hmake, Hw. subst made w2.
  unfold and_then, lift, getitem. now rewrite Hmod.
Qed.

Lemma load_environment_unregistered_without_key_raises_key_error_witness :
  load_environment no_json (Mapping [("id", VStr "Pendulum-v9")]) VNone
    sample_world
  = (Raise (KeyError "import_module"), sample_world).
Proof.
  apply (load_environment_unregistered_without_key_raises_key_error no_json
           [("id", VStr "Pendulum-v9")] VNone sample_world "Pendulum-v9"
           "Pendulum-v9");
    reflexivity.
Defined.

End EnvFactoryMore.
